(** * smartcrop.py: a shallow embedding of [smartcrop/library.py]

    The crop-selection engine is translated function by function.  Python
    [int]s are [Z].  Python [float]s are IEEE-754 binary64 numbers, Rocq's
    primitive floats; the operations the program asks of them are gathered in
    the class [Arith], whose instance [Float64] is the arithmetic the program
    runs on.

    An int that meets a float is converted with [of_int], as Python does in
    arithmetic; the conversion is exact below [2^53], far above any image
    size.  Exceptions are values of [result]; the loops that fill a local
    list are written in a small state-and-exception monad.  PIL and numpy
    are not part of the repository: what the engine needs of them enters as
    section variables, or is modelled where it is used and said so there. *)

From Stdlib Require Import ZArith Floats List Bool Lia.
Import ListNotations.

Set Implicit Arguments.

(** ** Exceptions *)

Inductive exn : Type :=
| ValueError
| ZeroDivisionError
| OverflowError
| IndexError.

Inductive result (A : Type) : Type :=
| Ok (a : A)
| Raise (e : exn).

Arguments Ok {A} a.
Arguments Raise {A} e.

Definition rbind {A B : Type} (r : result A) (k : A -> result B) : result B :=
  match r with
  | Ok a => k a
  | Raise e => Raise e
  end.

Declare Scope py_scope.
Delimit Scope py_scope with py.
Notation "x <- r ;; k" := (rbind r (fun x => k))
  (at level 61, r at next level, right associativity) : py_scope.
Notation "' p <- r ;; k" := (rbind r (fun p => k))
  (at level 61, p pattern, r at next level, right associativity) : py_scope.

Definition raises {A : Type} (r : result A) : Prop := exists e, r = Raise e.

(** [rmap f xs]: a comprehension or loop whose body may raise; the first
    exception ends it. *)
Fixpoint rmap {A B : Type} (f : A -> result B) (xs : list A) : result (list B) :=
  match xs with
  | [] => Ok []
  | a :: xs' =>
      match f a with
      | Raise e => Raise e
      | Ok b =>
          match rmap f xs' with
          | Raise e => Raise e
          | Ok bs => Ok (b :: bs)
          end
      end
  end.

(** ** The numeric interface *)

(** What the program asks of its floating-point numbers.  [of_int] is the
    implicit [int -> float] conversion of mixed arithmetic, [trunc] is
    [int(x)] and [floor] is [math.floor(x)]; [is_zero] is the test behind
    [ZeroDivisionError]. *)
Class Arith : Type := {
  num : Type;
  of_int : Z -> num;
  add : num -> num -> num;
  sub : num -> num -> num;
  mul : num -> num -> num;
  div : num -> num -> num;
  ltb : num -> num -> bool;
  leb : num -> num -> bool;
  is_zero : num -> bool;
  trunc : num -> result Z;
  floor : num -> result Z
}.

Declare Scope num_scope.
Delimit Scope num_scope with num.
Infix "+" := add : num_scope.
Infix "-" := sub : num_scope.
Infix "*" := mul : num_scope.
Infix "/" := div : num_scope.
Infix "<?" := ltb : num_scope.
Infix "<=?" := leb : num_scope.
Notation "x >? y" := (ltb y x) (only parsing) : num_scope.
Notation "x >=? y" := (leb y x) (only parsing) : num_scope.

(** *** Binary64 *)

Module F64.

(** [float(n)]: the integer rounded to nearest-even. *)
Definition of_int (z : Z) : float :=
  SF2Prim (binary_normalize prec emax z 0 false).

(** The integer part of a finite float [(-1)^s * m * 2^e], rounded down. *)
Definition floor_SF (s : bool) (m : positive) (e : Z) : Z :=
  let v := if s then Z.neg m else Z.pos m in
  if (0 <=? e)%Z then Z.shiftl v e else Z.shiftr v (- e).

(** [math.floor(x)]: [ValueError] on NaN, [OverflowError] on infinities. *)
Definition floor (x : float) : result Z :=
  match Prim2SF x with
  | S754_zero _ => Ok 0%Z
  | S754_finite s m e => Ok (floor_SF s m e)
  | S754_infinity _ => Raise OverflowError
  | S754_nan => Raise ValueError
  end.

(** [int(x)]: rounds toward zero. *)
Definition trunc (x : float) : result Z :=
  match Prim2SF x with
  | S754_zero _ => Ok 0%Z
  | S754_finite s m e =>
      Ok (if s then (- floor_SF false m e)%Z else floor_SF false m e)
  | S754_infinity _ => Raise OverflowError
  | S754_nan => Raise ValueError
  end.

Definition is_zero (x : float) : bool := PrimFloat.eqb x 0%float.

End F64.

#[export] Instance Float64 : Arith := {|
  num := float;
  of_int := F64.of_int;
  add := PrimFloat.add;
  sub := PrimFloat.sub;
  mul := PrimFloat.mul;
  div := PrimFloat.div;
  ltb := PrimFloat.ltb;
  leb := PrimFloat.leb;
  is_zero := F64.is_zero;
  trunc := F64.trunc;
  floor := F64.floor
|}.

(** A Python float of the running program. *)
Abbreviation float64 := (@num Float64).

(** [float] is recognised as the carrier of [Float64]. *)
Canonical Structure Float64.

Section Python.

Context {A : Arith}.
Local Open Scope num_scope.

(** A decimal literal [n/d], e.g. [lit 141 100] for [1.41]: the quotient
    of two exactly represented integers is the nearest float. *)
Definition lit (n d : Z) : num := of_int n / of_int d.

(** [x / y] on floats. *)
Definition py_div (x y : num) : result num :=
  if is_zero y then Raise ZeroDivisionError else Ok (x / y).

(** [a / b] on ints (true division; exact operands below [2^53]). *)
Definition py_truediv (a b : Z) : result num :=
  if (b =? 0)%Z then Raise ZeroDivisionError else Ok (of_int a / of_int b).

(** [min(a, b)] and [max(a, b)]: the first argument unless the second
    beats it strictly. *)
Definition py_min (a b : num) : num := if b <? a then b else a.
Definition py_max (a b : num) : num := if b >? a then b else a.

End Python.

(** [range(start, stop, step)]; a zero step is a [ValueError]. *)
Definition range_len (start stop step : Z) : nat :=
  if (0 <? step)%Z then Z.to_nat ((stop - start + step - 1) / step)
  else Z.to_nat ((start - stop - step - 1) / (- step)).

Definition py_range (start stop step : Z) : result (list Z) :=
  if (step =? 0)%Z then Raise ValueError
  else Ok (map (fun k => (start + Z.of_nat k * step)%Z)
               (seq 0 (range_len start stop step))).


(** ** Data model

    The records are indexed by the type [F] that stands for Python's
    [float]. *)

(** A candidate as [crops] builds it: the dict with keys ['x'], ['y']
    (ints) and ['width'], ['height'] (floats). *)
Record Crop (F : Type) : Type := mkCrop {
  c_x : Z;
  c_y : Z;
  c_width : F;
  c_height : F
}.

(** The dict [score] returns. *)
Record Score (F : Type) : Type := mkScore {
  s_detail : F;
  s_saturation : F;
  s_skin : F;
  s_boost : F;
  s_total : F
}.

(** A boost region, as [crop] receives them in [boosts]. *)
Record Boost (F : Type) : Type := mkBoost {
  b_x : F;
  b_y : F;
  b_width : F;
  b_height : F;
  b_weight : F
}.

(** A candidate once [crop['score'] = ...] has run. *)
Record Scored (F : Type) : Type := mkScored {
  sc_crop : Crop F;
  sc_score : Score F
}.

(** The dict [analyse] returns, without ['analyse_image'].  ['top_crop']
    is the very dict object that sits in ['crops'], so it is kept as a
    position in that list: what is later done to the list's elements is
    done to the top crop. *)
Record Analysis (F : Type) : Type := mkAnalysis {
  a_crops : list (Scored F);
  a_top_crop : option nat
}.

(** A candidate after [crop] rewrote its four keys with ints. *)
Record Rect (F : Type) : Type := mkRect {
  r_x : Z;
  r_y : Z;
  r_width : Z;
  r_height : Z;
  r_score : Score F
}.

Record CropResult (F : Type) : Type := mkCropResult {
  res_crops : list (Rect F);
  res_top_crop : option nat
}.

Arguments mkCrop {F}. Arguments c_x {F}. Arguments c_y {F}.
Arguments c_width {F}. Arguments c_height {F}.
Arguments mkScore {F}. Arguments s_detail {F}. Arguments s_saturation {F}.
Arguments s_skin {F}. Arguments s_boost {F}. Arguments s_total {F}.
Arguments mkBoost {F}. Arguments b_x {F}. Arguments b_y {F}.
Arguments b_width {F}. Arguments b_height {F}. Arguments b_weight {F}.
Arguments mkScored {F}. Arguments sc_crop {F}. Arguments sc_score {F}.
Arguments mkAnalysis {F}. Arguments a_crops {F}. Arguments a_top_crop {F}.
Arguments mkRect {F}. Arguments r_x {F}. Arguments r_y {F}.
Arguments r_width {F}. Arguments r_height {F}. Arguments r_score {F}.
Arguments mkCropResult {F}. Arguments res_crops {F}. Arguments res_top_crop {F}.

(** What [crop] has worked out when it calls [analyse]. *)
Record Plan (F Image : Type) : Type := mkPlan {
  p_image : Image;
  p_boosts : option (list (Boost F));
  p_crop_width : Z;
  p_crop_height : Z;
  p_min_scale : F;
  p_prescale_size : F
}.

Arguments mkPlan {F Image}. Arguments p_image {F Image}.
Arguments p_boosts {F Image}. Arguments p_crop_width {F Image}.
Arguments p_crop_height {F Image}. Arguments p_min_scale {F Image}.
Arguments p_prescale_size {F Image}.

(** ** The geometry of the search *)


Section Model.

Context {A : Arith}.
Local Open Scope num_scope.

(** ** [SmartCrop.crops] *)

(** The function appends to its local list [crops] from inside three
    nested loops, two of which [break]; [range] may raise in the middle.
    [Emit] threads the list and the pending exception. *)
Definition Emit (T : Type) : Type :=
  list (Crop num) -> list (Crop num) * result T.

Definition eret {T : Type} (t : T) : Emit T := fun acc => (acc, Ok t).

Definition ebind {T U : Type} (m : Emit T) (k : T -> Emit U) : Emit U :=
  fun acc =>
    match m acc with
    | (acc', Ok t) => k t acc'
    | (acc', Raise e) => (acc', Raise e)
    end.

Definition elift {T : Type} (r : result T) : Emit T := fun acc => (acc, r).

Definition append (c : Crop num) : Emit unit := fun acc => (acc ++ [c], Ok tt).

Section Crops.

Variables (image_width image_height : Z).
Variables (crop_width crop_height : Z).
Variables (max_scale min_scale scale_step : num).
Variable (step : Z).

Definition candidate (scale : num) (x y : Z) : Crop num :=
  {| c_x := x;
     c_y := y;
     c_width := of_int crop_width * scale;
     c_height := of_int crop_height * scale |}.

(** [x + crop_width * scale > image_width] and its twin for rows. *)
Definition x_overflows (scale : num) (x : Z) : bool :=
  of_int x + of_int crop_width * scale >? of_int image_width.

Definition y_overflows (scale : num) (y : Z) : bool :=
  of_int y + of_int crop_height * scale >? of_int image_height.

(** [for x in range(0, image_width, step)], entered with the range's
    elements. *)
Fixpoint x_loop (scale : num) (y : Z) (xs : list Z) : Emit unit :=
  match xs with
  | [] => eret tt
  | x :: xs' =>
      if x_overflows scale x then eret tt (* break *)
      else ebind (append (candidate scale x y))
                 (fun _ => x_loop scale y xs')
  end.

(** [for y in range(0, image_height, step)]. *)
Fixpoint y_loop (scale : num) (ys : list Z) : Emit unit :=
  match ys with
  | [] => eret tt
  | y :: ys' =>
      if y_overflows scale y then eret tt (* break *)
      else ebind (elift (py_range 0 image_width step)) (fun xs =>
           ebind (x_loop scale y xs) (fun _ =>
           y_loop scale ys'))
  end.

(** [for scale in (i / 100 for i in range(...))]. *)
Fixpoint scale_loop (hundredths : list Z) : Emit unit :=
  match hundredths with
  | [] => eret tt
  | i :: rest =>
      let scale := of_int i / of_int 100 in
      ebind (elift (py_range 0 image_height step)) (fun ys =>
      ebind (y_loop scale ys) (fun _ =>
      scale_loop rest))
  end.

(** The three arguments of the outer [range], evaluated left to right. *)
Definition scale_bounds : result (Z * Z * Z) :=
  (hi <- trunc (max_scale * of_int 100) ;;
   lo <- trunc ((min_scale - scale_step) * of_int 100) ;;
   d <- trunc (scale_step * of_int 100) ;;
   Ok (hi, lo, d))%py.

Definition scale_range : result (list Z) :=
  ('(hi, lo, d) <- scale_bounds ;; py_range hi lo (- d))%py.

(** The body up to the final emptiness test, run on [crops = []]: the
    list as it stands when the loops end or an exception leaves them. *)
Definition crops_run : list (Crop num) * result unit :=
  ebind (elift scale_range) scale_loop [].

Definition crops_emitted : list (Crop num) := fst crops_run.

Definition crops : result (list (Crop num)) :=
  match crops_run with
  | (_, Raise e) => Raise e
  | ([], Ok _) => Raise ValueError (* if not crops: raise ValueError(locals()) *)
  | (acc, Ok _) => Ok acc
  end.

End Crops.

(** ** [SmartCrop.analyse] and [SmartCrop.crop] *)

(** [sys.maxsize] on a 64-bit build.  [analyse] compares float totals
    with the int [-sys.maxsize]; Python compares the two exactly.  The model
    compares with [of_int (- sys_maxsize)], which is [-2^63]: no binary64
    value lies strictly between [-2^63] and [-2^63 + 1], so both comparisons
    give the same answer for every total. *)
Definition sys_maxsize : Z := 2 ^ 63 - 1.

Section Analyse.

(** What comes from PIL and numpy: the image with its size, the
    in-place [thumbnail], and the feature extraction of lines 96-117
    (which reads [self.boosts]).  [scorer] is [self.score] applied to
    the down-sampled feature map. *)
Variables (Image Features : Type).
Variable size : Image -> Z * Z.
Variable thumbnail : Image -> Z * Z -> result Image.
Variable extract : Image -> option (list (Boost num)) -> result Features.
Variable scorer : Features -> Crop num -> result (Score num).

(** The loop [for i, crop in enumerate(crops)], from position [i] on,
    with the locals [top_crop] and [top_score]. *)
Fixpoint select (feats : Features) (i : nat) (cs : list (Crop num))
         (top_crop : option nat) (top_score : num)
  : result (list (Scored num) * option nat) :=
  match cs with
  | [] => Ok ([], top_crop)
  | c :: cs' =>
      (sc <- scorer feats c ;;
       '(rest, top) <-
          (if s_total sc >? top_score
           then select feats (S i) cs' (Some i) (s_total sc)
           else select feats (S i) cs' top_crop top_score) ;;
       Ok (mkScored c sc :: rest, top))%py
  end.

Definition analyse (image : Image) (boosts : option (list (Boost num)))
           (crop_width crop_height : Z)
           (max_scale min_scale scale_step : num) (step : Z)
  : result (Analysis num) :=
  (feats <- extract image boosts ;;
   let '(image_width, image_height) := size image in
   cs <- crops image_width image_height crop_width crop_height
               max_scale min_scale scale_step step ;;
   '(scored, top) <- select feats 0 cs None (of_int (- sys_maxsize)) ;;
   Ok (mkAnalysis scored top))%py.

Definition scale_boost (prescale_size : num) (b : Boost num) : Boost num :=
  {| b_x := b_x b * prescale_size;
     b_y := b_y b * prescale_size;
     b_width := b_width b * prescale_size;
     b_height := b_height b * prescale_size;
     b_weight := b_weight b |}.

(** The last loop of [crop]: the four keys divided by [prescale_size]
    and floored. *)
Definition rescale (prescale_size : num) (s : Scored num) : result (Rect num) :=
  let c := sc_crop s in
  (qx <- py_div (of_int (c_x c)) prescale_size ;;
   x <- floor qx ;;
   qy <- py_div (of_int (c_y c)) prescale_size ;;
   y <- floor qy ;;
   qw <- py_div (c_width c) prescale_size ;;
   w <- floor qw ;;
   qh <- py_div (c_height c) prescale_size ;;
   h <- floor qh ;;
   Ok (mkRect x y w h (sc_score s)))%py.

(** Lines 152-182 of [crop]. *)
Definition plan (image : Image) (width height : Z) (prescale : bool)
           (max_scale min_scale : num) (boosts : option (list (Boost num)))
  : result (Plan num Image) :=
  let '(image_width, image_height) := size image in
  (sx <- py_truediv image_width width ;;
   sy <- py_truediv image_height height ;;
   let scale := py_min sx sy in
   crop_width <- floor (of_int width * scale) ;;
   crop_height <- floor (of_int height * scale) ;;
   inv <- py_div (of_int 1) scale ;;
   let min_scale := py_min max_scale (py_max inv min_scale) in
   if prescale then
     inv' <- py_div (of_int 1) scale ;;
     prescale_size <- py_div inv' min_scale ;;
     if prescale_size <? of_int 1 then
       tw <- trunc (of_int image_width * prescale_size) ;;
       th <- trunc (of_int image_height * prescale_size) ;;
       image' <- thumbnail image (tw, th) ;;
       crop_width' <- floor (of_int crop_width * prescale_size) ;;
       crop_height' <- floor (of_int crop_height * prescale_size) ;;
       Ok (mkPlan image' (option_map (map (scale_boost prescale_size)) boosts)
                  crop_width' crop_height' min_scale prescale_size)
     else
       Ok (mkPlan image boosts crop_width crop_height min_scale (of_int 1))
   else
     Ok (mkPlan image boosts crop_width crop_height min_scale (of_int 1)))%py.

Definition crop (image : Image) (width height : Z) (prescale : bool)
           (max_scale min_scale scale_step : num) (step : Z)
           (boosts : option (list (Boost num)))
  : result (CropResult num) :=
  (p <- plan image width height prescale max_scale min_scale boosts ;;
   result <- analyse (p_image p) (p_boosts p)
                     (p_crop_width p) (p_crop_height p)
                     max_scale (p_min_scale p) scale_step step ;;
   rects <- rmap (rescale (p_prescale_size p)) (a_crops result) ;;
   Ok (mkCropResult rects (a_top_crop result)))%py.

End Analyse.

End Model.


(** ** Scoring, on binary64 *)

Module F64Ops.

(** C's [fmod] on finite operands: the remainder of the magnitudes, with
    the sign of [x]; it is exact. *)
Definition fmod (x y : float) : float :=
  match Prim2SF x, Prim2SF y with
  | S754_nan, _ | _, S754_nan => nan
  | S754_infinity _, _ => nan
  | _, S754_zero _ => nan
  | S754_zero _, _ => x
  | _, S754_infinity _ => x
  | S754_finite sx mx ex, S754_finite _ my ey =>
      let e := Z.min ex ey in
      let r := ((Z.shiftl (Z.pos mx) (ex - e)) mod (Z.shiftl (Z.pos my) (ey - e)))%Z in
      if (r =? 0)%Z then (if sx then neg_zero else zero)
      else SF2Prim (binary_normalize prec emax (if sx then (- r)%Z else r) e false)
  end.

(** [x % y] on floats (CPython's [float_rem]): the result takes the sign
    of [y]. *)
Definition py_mod (x y : float) : result float :=
  if F64.is_zero y then Raise ZeroDivisionError
  else
    let m := fmod x y in
    Ok (if F64.is_zero m then (if get_sign y then neg_zero else zero)
        else if xorb (PrimFloat.ltb y 0) (PrimFloat.ltb m 0) then PrimFloat.add m y
        else m).

(** [math.sqrt(x)]: a negative argument is a [ValueError]. *)
Definition py_sqrt (x : float) : result float :=
  if PrimFloat.ltb x 0 then Raise ValueError else Ok (PrimFloat.sqrt x).

End F64Ops.

Section Scoring.

Local Open Scope num_scope.
Local Open Scope py_scope.

Local Abbreviation float := float64.

(** The attributes [__init__] stores (without [boosts] and [debug]). *)
Record SmartCrop : Type := mkSmartCrop {
  detail_weight : float;
  edge_radius : float;
  edge_weight : float;
  outside_importance : float;
  rule_of_thirds : bool;
  saturation_bias : float;
  saturation_brightness_max : float;
  saturation_brightness_min : float;
  saturation_threshold : float;
  saturation_weight : float;
  boost_weight : float;
  score_down_sample : Z;
  skin_bias : float;
  skin_brightness_max : float;
  skin_brightness_min : float;
  skin_color : float * float * float;
  skin_threshold : float;
  skin_weight : float
}.

Definition DEFAULT_SKIN_COLOR : float * float * float :=
  (lit 78 100, lit 57 100, lit 44 100).

(** [SmartCrop()] with every keyword at its default. *)
Definition default : SmartCrop := {|
  detail_weight := lit 2 10;
  edge_radius := lit 4 10;
  edge_weight := of_int (-20);
  outside_importance := lit (-5) 10;
  rule_of_thirds := true;
  saturation_bias := lit 2 10;
  saturation_brightness_max := lit 9 10;
  saturation_brightness_min := lit 5 100;
  saturation_threshold := lit 4 10;
  saturation_weight := lit 3 10;
  boost_weight := of_int 100;
  score_down_sample := 8;
  skin_bias := lit 1 100;
  skin_brightness_max := of_int 1;
  skin_brightness_min := lit 2 10;
  skin_color := DEFAULT_SKIN_COLOR;
  skin_threshold := lit 8 10;
  skin_weight := lit 18 10
|}.

(** [thirds(x)]. *)
Definition thirds (x : float) : result float :=
  m <- F64Ops.py_mod (x + lit 2 3) (of_int 2) ;;
  let x := (m * lit 5 10 - lit 5 10) * of_int 16 in
  Ok (py_max (of_int 1 - x * x) (of_int 0)).

(** The guard of [importance]: the point lies outside the crop. *)
Definition outside (crop : Crop float) (x y : Z) : bool :=
  (c_x crop >? x)%Z
  || (of_int x >=? of_int (c_x crop) + c_width crop)
  || (c_y crop >? y)%Z
  || (of_int y >=? of_int (c_y crop) + c_height crop).

(** The rest of [importance], from the normalised offsets on. *)
Definition importance_at (self : SmartCrop) (x y : float) : result float :=
  let px := PrimFloat.abs (lit 5 10 - x) * of_int 2 in
  let py := PrimFloat.abs (lit 5 10 - y) * of_int 2 in
  let dx := py_max (px - of_int 1 + edge_radius self) (of_int 0) in
  let dy := py_max (py - of_int 1 + edge_radius self) (of_int 0) in
  let d := (dx * dx + dy * dy) * edge_weight self in
  r <- F64Ops.py_sqrt (px * px + py * py) ;;
  let s := lit 141 100 - r in
  if rule_of_thirds self then
    tx <- thirds px ;;
    ty <- thirds py ;;
    let s := s + (py_max (of_int 0) (s + d + lit 5 10) * lit 12 10) * (tx + ty) in
    Ok (s + d)
  else Ok (s + d).

Definition importance (self : SmartCrop) (crop : Crop float) (x y : Z)
  : result float :=
  if outside crop x y then Ok (outside_importance self)
  else
    x' <- py_div (of_int (x - c_x crop)) (c_width crop) ;;
    y' <- py_div (of_int (y - c_y crop)) (c_height crop) ;;
    importance_at self x' y'.

(** ** [SmartCrop.score] *)

(** One RGBA pixel of the analysis image: R = skin, G = edge, B =
    saturation, A = boost, each in [0; 255]. *)
Definition Pixel : Type := (Z * Z * Z * Z)%type.

Definition px_skin (p : Pixel) : Z := let '(r, _, _, _) := p in r.
Definition px_edge (p : Pixel) : Z := let '(_, g, _, _) := p in g.
Definition px_saturation (p : Pixel) : Z := let '(_, _, b, _) := p in b.
Definition px_boost (p : Pixel) : Z := let '(_, _, _, a) := p in a.

(** [target_image]: its size and the flat sequence [getdata()] returns,
    row after row. *)
Record TargetImage : Type := mkTargetImage {
  t_width : Z;
  t_height : Z;
  t_data : list Pixel
}.

(** [seq[index]] on a Python sequence: a negative index counts from the
    end, anything else out of range is an [IndexError]. *)
Definition py_getitem {T : Type} (l : list T) (index : Z) : result T :=
  let n := Z.of_nat (length l) in
  let i := if (index <? 0)%Z then (index + n)%Z else index in
  if (i <? 0)%Z then Raise IndexError
  else match nth_error l (Z.to_nat i) with
       | Some t => Ok t
       | None => Raise IndexError
       end.

(** The four running sums of the dict [score]. *)
Record Sums : Type := mkSums {
  sum_detail : float;
  sum_saturation : float;
  sum_skin : float;
  sum_boost : float
}.

(** [int(math.floor(y * inv_down_sample) * target_width
         + math.floor(x * inv_down_sample))]. *)
Definition cell_index (inv_down_sample : float) (target_width x y : Z)
  : result Z :=
  row <- floor (of_int y * inv_down_sample) ;;
  col <- floor (of_int x * inv_down_sample) ;;
  Ok (row * target_width + col)%Z.

(** What one pixel adds, given the importance of its place. *)
Definition accumulate (self : SmartCrop) (p : Pixel) (importance : float)
           (acc : Sums) : Sums :=
  let detail := of_int (px_edge p) / of_int 255 in
  let skin :=
    sum_skin acc
    + of_int (px_skin p) / of_int 255 * (detail + skin_bias self) * importance in
  let det := sum_detail acc + detail * importance in
  let sat :=
    sum_saturation acc
    + of_int (px_saturation p) / of_int 255 * (detail + saturation_bias self)
      * importance in
  let boost := sum_boost acc + of_int (px_boost p) / of_int 255 * importance in
  mkSums det sat skin boost.

(** The body of the two loops of [score]. *)
Definition score_cell (self : SmartCrop) (target : TargetImage)
           (inv_down_sample : float) (crop : Crop float) (x y : Z)
           (acc : Sums) : result Sums :=
  index <- cell_index inv_down_sample (t_width target) x y ;;
  imp <- importance self crop x y ;;
  p <- py_getitem (t_data target) index ;;
  Ok (accumulate self p imp acc).

Fixpoint score_x_loop (self : SmartCrop) (target : TargetImage)
         (inv_down_sample : float) (crop : Crop float) (y : Z)
         (xs : list Z) (acc : Sums) : result Sums :=
  match xs with
  | [] => Ok acc
  | x :: xs' =>
      acc' <- score_cell self target inv_down_sample crop x y acc ;;
      score_x_loop self target inv_down_sample crop y xs' acc'
  end.

Fixpoint score_y_loop (self : SmartCrop) (target : TargetImage)
         (inv_down_sample : float) (crop : Crop float)
         (ys : list Z) (acc : Sums) : result Sums :=
  match ys with
  | [] => Ok acc
  | y :: ys' =>
      xs <- py_range 0 (t_width target * score_down_sample self)
                     (score_down_sample self) ;;
      acc' <- score_x_loop self target inv_down_sample crop y xs acc ;;
      score_y_loop self target inv_down_sample crop ys' acc'
  end.

Definition score (self : SmartCrop) (target_image : TargetImage)
           (crop : Crop float) : result (Score float) :=
  let down_sample := score_down_sample self in
  inv_down_sample <- py_truediv 1 down_sample ;;
  let target_width_down_sample := (t_width target_image * down_sample)%Z in
  let target_height_down_sample := (t_height target_image * down_sample)%Z in
  ys <- py_range 0 target_height_down_sample down_sample ;;
  acc <- score_y_loop self target_image inv_down_sample crop ys
                      (mkSums (of_int 0) (of_int 0) (of_int 0) (of_int 0)) ;;
  total <- py_div (sum_detail acc * detail_weight self
                   + sum_skin acc * skin_weight self
                   + sum_saturation acc * saturation_weight self
                   + sum_boost acc * boost_weight self)
                  (c_width crop * c_height crop) ;;
  Ok (mkScore (sum_detail acc) (sum_saturation acc) (sum_skin acc)
              (sum_boost acc) total).

(** ** Feature channels *)

(** [array.astype('uint8')] on one float64 cell.  numpy is not part of the
    repository; its cast is taken as what it does on x86-64: the float is
    converted to a 32-bit integer, dropping the fraction, and the low eight
    bits are kept.  Where the integer does not fit 32 bits, and for NaN and
    the infinities, the conversion yields [-2^31], whose low eight bits are
    0. *)
Definition astype_uint8 (v : float) : Z :=
  match trunc v with
  | Ok z =>
      if ((- 2 ^ 31 <=? z) && (z <? 2 ^ 31))%Z then (z mod 256)%Z else 0%Z
  | Raise _ => 0%Z
  end.

(** *** [SmartCrop.detect_skin], one pixel at a time

    The numpy expressions work cell by cell; [r], [g], [b] are the
    pixel's channels and [cie] its luminance. *)

(** [mag] and the mask of line 323. *)
Definition magnitude (r g b : Z) : float :=
  PrimFloat.sqrt (of_int r * of_int r + of_int g * of_int g + of_int b * of_int b).

Definition has_direction (r g b : Z) : bool :=
  negb (PrimFloat.abs (magnitude r g b) <? lit 1 1000000).

(** [(rd, gd, bd)]: filled with [1 * -skin_color], overwritten where the
    mask holds. *)
Definition skin_displacement (self : SmartCrop) (r g b : Z)
  : float * float * float :=
  let '(sr, sg, sb) := skin_color self in
  if has_direction r g b then
    let mag := magnitude r g b in
    (of_int r / mag - sr, of_int g / mag - sg, of_int b / mag - sb)
  else
    (of_int 1 * PrimFloat.opp sr, of_int 1 * PrimFloat.opp sg,
     of_int 1 * PrimFloat.opp sb).

(** [skin], line 328: the likelihood before the mask of lines 329-335. *)
Definition skin_likelihood (self : SmartCrop) (r g b : Z) : float :=
  let '(rd, gd, bd) := skin_displacement self r g b in
  of_int 1 - PrimFloat.sqrt (rd * rd + gd * gd + bd * bd).

Definition detect_skin_pixel (self : SmartCrop) (cie r g b : Z) : result Z :=
  let skin := skin_likelihood self r g b in
  let mask :=
    (skin >? skin_threshold self)
    && (of_int cie >=? skin_brightness_min self * of_int 255)
    && (of_int cie <=? skin_brightness_max self * of_int 255) in
  gain <- py_div (of_int 255) (of_int 1 - skin_threshold self) ;;
  let skin_data := (skin - skin_threshold self) * gain in
  Ok (astype_uint8 (if mask then skin_data else of_int 0)).

(** [detect_skin] over the pixels [(cie, (r, g, b))] of the image. *)
Definition detect_skin (self : SmartCrop) (pixels : list (Z * (Z * Z * Z)))
  : result (list Z) :=
  rmap (fun '(cie, (r, g, b)) => detect_skin_pixel self cie r g b) pixels.

(** *** [SmartCrop.applyBoosts] and [SmartCrop.applyBoost] *)

(** A 2-D numpy array as its rows. *)
Definition Grid (T : Type) : Type := list (list T).

Definition zeros (h w : Z) : Grid float :=
  repeat (repeat (of_int 0) (Z.to_nat w)) (Z.to_nat h).

(** The bound [i] of a slice [a:b] along an axis of length [n], as Python
    normalises it: a negative bound counts from the end, and the result is
    clipped to [0; n]. *)
Definition slice_bound (i n : Z) : Z :=
  if (i <? 0)%Z then Z.max (i + n) 0 else Z.min i n.

Definition in_slice (lo hi n i : Z) : bool :=
  (slice_bound lo n <=? i)%Z && (i <? slice_bound hi n)%Z.

Fixpoint mapi_from {T U : Type} (f : Z -> T -> U) (i : Z) (l : list T) : list U :=
  match l with
  | [] => []
  | t :: l' => f i t :: mapi_from f (i + 1) l'
  end.

(** [image[y0:y1, x0:x1] += weight]. *)
Definition add_to_slice (y0 y1 x0 x1 : Z) (weight : float) (image : Grid float)
  : Grid float :=
  let h := Z.of_nat (length image) in
  mapi_from (fun r row =>
    if in_slice y0 y1 h r then
      let w := Z.of_nat (length row) in
      mapi_from (fun c v => if in_slice x0 x1 w c then v + weight else v) 0 row
    else row) 0 image.

Definition applyBoost (boost : Boost float) (image : Grid float)
  : result (Grid float) :=
  x0 <- trunc (b_x boost) ;;
  x1 <- trunc (b_x boost + b_width boost) ;;
  y0 <- trunc (b_y boost) ;;
  y1 <- trunc (b_y boost + b_height boost) ;;
  let weight := b_weight boost * of_int 255 in
  Ok (add_to_slice y0 y1 x0 x1 weight image).

Fixpoint applyBoost_each (boosts : list (Boost float)) (od : Grid float)
  : result (Grid float) :=
  match boosts with
  | [] => Ok od
  | boost :: rest => od' <- applyBoost boost od ;; applyBoost_each rest od'
  end.

(** [applyBoosts], for an image of size [(w, h)] and [self.boosts]. *)
Definition applyBoosts (boosts : option (list (Boost float))) (w h : Z)
  : result (Grid Z) :=
  let od := zeros h w in
  od' <- match boosts with
         | Some bs => applyBoost_each bs od
         | None => Ok od
         end ;;
  Ok (map (map astype_uint8) od').

End Scoring.

(** ** The candidate grid as the specification words it *)

Section CropsSpec.

Context {A : Arith}.
Local Open Scope num_scope.

(** [i, i - d, i - 2d, ...] as long as the value stays above the
    exclusive bound [lo]. *)
Fixpoint descending (fuel : nat) (i lo d : Z) : list Z :=
  match fuel with
  | O => []
  | S fuel' => if (lo <? i)%Z then i :: descending fuel' (i - d) lo d else []
  end.

(** The scales of the search in hundredths: from [hi] down in decrements
    of [d], the bound [lo] excluded. *)
Definition scale_grid (hi lo d : Z) : list Z :=
  descending (Z.to_nat (hi - lo)) hi lo d.

(** [i, i + step, i + 2 step, ...] below [bound]. *)
Fixpoint ascending (fuel : nat) (i bound step : Z) : list Z :=
  match fuel with
  | O => []
  | S fuel' =>
      if (i <? bound)%Z then i :: ascending fuel' (i + step) bound step else []
  end.

(** The multiples of [step] from 0 to [bound]. *)
Definition positions (bound step : Z) : list Z :=
  ascending (Z.to_nat bound) 0 bound step.

(** The positions visited before the loop is aborted. *)
Fixpoint until (abort : Z -> bool) (l : list Z) : list Z :=
  match l with
  | [] => []
  | z :: l' => if abort z then [] else z :: until abort l'
  end.

Definition crops_spec (image_width image_height crop_width crop_height : Z)
           (hi lo d : Z) (step : Z) : list (Crop num) :=
  flat_map (fun i =>
    let scale := of_int i / of_int 100 in
    flat_map (fun y =>
      map (fun x => candidate crop_width crop_height scale x y)
          (until (x_overflows image_width crop_width scale)
                 (positions image_width step)))
      (until (y_overflows image_height crop_height scale)
             (positions image_height step)))
    (scale_grid hi lo d).

End CropsSpec.

(** ** The order of binary64, through a lexicographic key *)

(** A non-NaN float as a triple that [Z]'s lexicographic order sorts the
    way IEEE comparison does: the class and sign first, then the exponent,
    then the mantissa (both negated below zero). *)
Definition key (x : spec_float) : Z * Z * Z :=
  match x with
  | S754_zero _ => (0, 0, 0)
  | S754_infinity false => (2, 0, 0)
  | S754_infinity true => (-2, 0, 0)
  | S754_nan => (0, 0, 0)
  | S754_finite false m e => (1, e, Z.pos m)
  | S754_finite true m e => (-1, - e, Z.neg m)
  end%Z.

Definition lt3 (a b : Z * Z * Z) : Prop :=
  let '(a1, a2, a3) := a in
  let '(b1, b2, b3) := b in
  (a1 < b1 \/ (a1 = b1 /\ (a2 < b2 \/ (a2 = b2 /\ a3 < b3))))%Z.

Definition not_nan (x : float) : Prop := Prim2SF x <> S754_nan.

Definition fkey (x : float) : Z * Z * Z := key (Prim2SF x).

(** The total of a scored candidate, [crop['score']['total']]. *)
Definition total_of (s : Scored float64) : float64 := s_total (sc_score s).

(** ** The score as the specification words it *)

Section ScoreSpec.

Local Open Scope num_scope.
Local Open Scope py_scope.

Local Abbreviation float := float64.

(** [self] with another [score_down_sample]. *)
Definition with_down_sample (self : SmartCrop) (down_sample : Z) : SmartCrop :=
  {| detail_weight := detail_weight self;
     edge_radius := edge_radius self;
     edge_weight := edge_weight self;
     outside_importance := outside_importance self;
     rule_of_thirds := rule_of_thirds self;
     saturation_bias := saturation_bias self;
     saturation_brightness_max := saturation_brightness_max self;
     saturation_brightness_min := saturation_brightness_min self;
     saturation_threshold := saturation_threshold self;
     saturation_weight := saturation_weight self;
     boost_weight := boost_weight self;
     score_down_sample := down_sample;
     skin_bias := skin_bias self;
     skin_brightness_max := skin_brightness_max self;
     skin_brightness_min := skin_brightness_min self;
     skin_color := skin_color self;
     skin_threshold := skin_threshold self;
     skin_weight := skin_weight self |}.

(** The cells [(column, row)] of a [width] by [height] map, row after
    row, each once. *)
Definition cells (width height : Z) : list (Z * Z) :=
  flat_map (fun row => map (fun col => (Z.of_nat col, Z.of_nat row))
                           (seq 0 (Z.to_nat width)))
           (seq 0 (Z.to_nat height)).

(** What the cell [(col, row)] adds: its own pixel, weighted by the
    importance of the analysis-resolution point it stands for. *)
Definition cell_term (self : SmartCrop) (target : TargetImage)
           (crop : Crop float) (cell : Z * Z) (acc : Sums) : result Sums :=
  let '(col, row) := cell in
  let D := score_down_sample self in
  imp <- importance self crop (col * D) (row * D) ;;
  p <- py_getitem (t_data target) (row * t_width target + col) ;;
  Ok (accumulate self p imp acc).

Fixpoint sum_cells (self : SmartCrop) (target : TargetImage)
         (crop : Crop float) (cs : list (Z * Z)) (acc : Sums) : result Sums :=
  match cs with
  | [] => Ok acc
  | c :: cs' =>
      acc' <- cell_term self target crop c acc ;;
      sum_cells self target crop cs' acc'
  end.

Definition score_spec (self : SmartCrop) (target : TargetImage)
           (crop : Crop float) : result (Score float) :=
  acc <- sum_cells self target crop
                   (cells (t_width target) (t_height target))
                   (mkSums (of_int 0) (of_int 0) (of_int 0) (of_int 0)) ;;
  total <- py_div (sum_detail acc * detail_weight self
                   + sum_skin acc * skin_weight self
                   + sum_saturation acc * saturation_weight self
                   + sum_boost acc * boost_weight self)
                  (c_width crop * c_height crop) ;;
  Ok (mkScore (sum_detail acc) (sum_saturation acc) (sum_skin acc)
              (sum_boost acc) total).

(** A feature map of two cells, the left one with full edge strength, as
    [analyse] derives it from a 98 by 49 image when [score_down_sample]
    is 49; and a candidate covering that image. *)
Definition two_cells : TargetImage :=
  mkTargetImage 2 1 [(0, 255, 0, 0); (0, 0, 0, 0)]%Z.

Definition whole_98_49 : Crop float :=
  mkCrop 0 0 (of_int 98) (of_int 49).

End ScoreSpec.

(** ** The boost channel, cell by cell *)

Section BoostSpec.

Local Open Scope num_scope.
Local Open Scope py_scope.

(** The integer bounds [(x0, x1, y0, y1)] that [applyBoost] works out. *)
Definition region (boost : Boost float64) : result (Z * Z * Z * Z) :=
  x0 <- trunc (b_x boost) ;;
  x1 <- trunc (b_x boost + b_width boost) ;;
  y0 <- trunc (b_y boost) ;;
  y1 <- trunc (b_y boost + b_height boost) ;;
  Ok (x0, x1, y0, y1).

(** A region whose four bounds are not negative. *)
Definition on_image (boost : Boost float64) : Prop :=
  exists x0 x1 y0 y1,
    region boost = Ok (x0, x1, y0, y1)
    /\ (0 <= x0)%Z /\ (0 <= x1)%Z /\ (0 <= y0)%Z /\ (0 <= y1)%Z.

(** The cell in row [r] and column [c] lies in
    [[x0, x1) x [y0, y1)]. *)
Definition covers (bounds : Z * Z * Z * Z) (r c : Z) : bool :=
  let '(x0, x1, y0, y1) := bounds in
  (x0 <=? c)%Z && (c <? x1)%Z && (y0 <=? r)%Z && (r <? y1)%Z.

(** What the regions add up to at one cell, in list order, from [v]. *)
Definition accumulated (boosts : list (Boost float64)) (r c : Z)
           (v : float64) : float64 :=
  fold_left (fun acc boost =>
               match region boost with
               | Ok bounds =>
                   if covers bounds r c
                   then acc + b_weight boost * of_int 255
                   else acc
               | Raise _ => acc
               end) boosts v.

Definition cell {T : Type} (g : Grid T) (r c : Z) : option T :=
  match nth_error g (Z.to_nat r) with
  | Some row => nth_error row (Z.to_nat c)
  | None => None
  end.

(** [h] rows of [w] cells. *)
Definition shaped {T : Type} (h w : Z) (g : Grid T) : Prop :=
  Z.of_nat (length g) = h /\ Forall (fun row => Z.of_nat (length row) = w) g.

(** A region that hangs over the left edge, and one wholly to the left of
    the image. *)
Definition over_left_edge : Boost float64 :=
  mkBoost (of_int (-1)) (of_int 0) (of_int 3) (of_int 1) (of_int 1).

Definition left_of_image : Boost float64 :=
  mkBoost (of_int (-3)) (of_int 0) (of_int 2) (of_int 1) (of_int 1).

(** A region whose weight lifts the sum to [2^31 + 127]. *)
Definition heavy : Boost float64 :=
  mkBoost (of_int 0) (of_int 0) (of_int 1) (of_int 1) (of_int 8421505).

(** Two overlapping regions of weight 1. *)
Definition overlapping : list (Boost float64) :=
  [mkBoost (of_int 1) (of_int 0) (of_int 2) (of_int 1) (of_int 1);
   mkBoost (of_int 2) (of_int 0) (of_int 5) (of_int 5) (of_int 1)].

End BoostSpec.

(** A zero, a finite number or an infinity of sign [s] (so: not NaN). *)
Inductive signed_number (s : bool) : spec_float -> Prop :=
| signed_zero : signed_number s (S754_zero s)
| signed_finite m e : signed_number s (S754_finite s m e)
| signed_infinity : signed_number s (S754_infinity s).

(** ** PIL, for the concrete runs

    An image is known by its size alone.  [thumbnail] is PIL's
    [Image.thumbnail] as far as the size goes (Pillow 7.0 and later): the
    requested size is reduced to the aspect ratio of the image by
    [preserve_aspect_ratio], and [resize] refuses a size with a side below
    1.  The analysis image is featureless: every channel of every cell of
    the down-sampled map is 0. *)
Section Collaborators.

Local Open Scope num_scope.
Local Open Scope py_scope.

Definition size_of (image : Z * Z) : Z * Z := image.

(** [math.ceil(x)]. *)
Definition py_ceil (x : float64) : result Z :=
  z <- floor (PrimFloat.opp x) ;; Ok (- z)%Z.

(** [max(min(math.floor(number), math.ceil(number), key=key), 1)]. *)
Definition round_aspect (number : float64) (key : Z -> result float64)
  : result Z :=
  lo <- floor number ;;
  hi <- py_ceil number ;;
  klo <- key lo ;;
  khi <- key hi ;;
  Ok (Z.max (if khi <? klo then hi else lo) 1).

(** [preserve_aspect_ratio()] for an image of size [(width, height)] and
    the provided size [(x, y)]; [None] when the image is small enough. *)
Definition preserve_aspect_ratio (width height x y : Z)
  : result (option (Z * Z)) :=
  if ((width <=? x) && (height <=? y))%Z then Ok None
  else
    aspect <- py_truediv width height ;;
    q <- py_truediv x y ;;
    if aspect <=? q then
      x' <- round_aspect (of_int y * aspect)
              (fun n => r <- py_truediv n y ;; Ok (PrimFloat.abs (aspect - r))) ;;
      Ok (Some (x', y))
    else
      v <- py_div (of_int x) aspect ;;
      y' <- round_aspect v
              (fun n => if (n =? 0)%Z then Ok (of_int 0)
                        else r <- py_truediv x n ;;
                             Ok (PrimFloat.abs (aspect - r))) ;;
      Ok (Some (x, y')).

(** [image.thumbnail(requested, ...)]: the size of the image afterwards. *)
Definition thumbnail (image : Z * Z) (requested : Z * Z) : result (Z * Z) :=
  let '(width, height) := image in
  let '(x, y) := requested in
  final <- preserve_aspect_ratio width height x y ;;
  match final with
  | None => Ok image
  | Some (x', y') =>
      if ((x' =? width) && (y' =? height))%Z then Ok image
      else if ((x' <? 1) || (y' <? 1))%Z then Raise ValueError
      else Ok (x', y')
  end.

Definition featureless (image : Z * Z) (boosts : option (list (Boost float64)))
  : result TargetImage :=
  let '(w, h) := image in
  let tw := ((w + 7) / 8)%Z in
  let th := ((h + 7) / 8)%Z in
  Ok (mkTargetImage tw th (repeat (0, 0, 0, 0)%Z (Z.to_nat (tw * th)))).

(** [SmartCrop().crop(image, width, height, prescale=...)] on those. *)
Definition crop_featureless (image : Z * Z) (width height : Z) (prescale : bool)
  : result (CropResult float64) :=
  crop size_of thumbnail featureless (score default)
       image width height prescale (of_int 1) (lit 9 10) (lit 1 10) 8 None.

End Collaborators.

(** A returned rectangle lies inside an image of size [(W, H)]. *)
Definition inside_image (F : Type) (W H : Z) (r : Rect F) : Prop :=
  (0 <= r_x r /\ 0 <= r_y r /\ r_x r + r_width r <= W /\ r_y r + r_height r <= H)%Z.

(** [analyse] on a 16 by 8 image whose feature map is [two_cells] (strong
    edges in the left half), for 8 by 8 crops. *)
Definition analyse_two_cells : result (Analysis float64) :=
  analyse size_of (fun _ _ => Ok two_cells) (score default)
          (16, 8)%Z None 8 8 (of_int 1) (lit 9 10) (lit 1 10) 8.

(** ** The saturation channel *)

Section Saturation.

Local Open Scope num_scope.
Local Open Scope py_scope.

Local Abbreviation float := float64.

(** [np.maximum] and [np.minimum] on two cells; the cells come from uint8
    arrays and are never NaN. *)
Definition np_maximum (a b : float) : float := if a <? b then b else a.

Definition np_minimum (a b : float) : float := if b <? a then b else a.

(** Lines 18-24 of [saturation] at one pixel, from [maximum] and
    [minimum] on. *)
Definition saturation_of (maximum minimum : float) : float :=
  let s := (maximum + minimum) / of_int 255 in
  let d := (maximum - minimum) / of_int 255 in
  let grey := PrimFloat.eqb maximum minimum in
  let d := if grey then of_int 0 else d in
  let s := if grey then of_int 1 else s in
  let s := if s >? of_int 1 then of_int 2 - d else s in
  d / s.

(** [saturation(image)] at the pixel [(r, g, b)]. *)
Definition saturation_pixel (r g b : Z) : float :=
  let r := of_int r in
  let g := of_int g in
  let b := of_int b in
  saturation_of (np_maximum (np_maximum r g) b) (np_minimum (np_minimum r g) b).

Definition saturation (pixels : list (Z * Z * Z)) : list float :=
  map (fun '(r, g, b) => saturation_pixel r g b) pixels.

(** *** [SmartCrop.detect_saturation] *)

(** The mask of lines 304-307 at one pixel of luminance [cie]. *)
Definition saturation_mask (self : SmartCrop) (cie : Z) (sat : float) : bool :=
  (sat >? saturation_threshold self)
  && (of_int cie >=? saturation_brightness_min self * of_int 255)
  && (of_int cie <=? saturation_brightness_max self * of_int 255).

(** [saturation_data] at that pixel after lines 309-310; [gain] is
    [255 / (1 - threshold)]. *)
Definition saturation_cell (self : SmartCrop) (gain : float) (cie : Z)
           (sat : float) : float :=
  if saturation_mask self cie sat
  then (sat - saturation_threshold self) * gain
  else of_int 0.

(** [detect_saturation] over the pixels [(cie, (r, g, b))] of the image. *)
Definition detect_saturation (self : SmartCrop)
           (pixels : list (Z * (Z * Z * Z))) : result (list Z) :=
  gain <- py_div (of_int 255) (of_int 1 - saturation_threshold self) ;;
  Ok (map (fun '(cie, (r, g, b)) =>
             astype_uint8 (saturation_cell self gain cie (saturation_pixel r g b)))
          pixels).

(** The 256 values of a uint8 cell. *)
Definition uint8_values : list Z := map Z.of_nat (seq 0 256).

End Saturation.

(** A float that is neither NaN nor an infinity. *)
Definition is_finite (x : float64) : bool :=
  match Prim2SF x with
  | S754_zero _ | S754_finite _ _ _ => true
  | S754_infinity _ | S754_nan => false
  end.

(** The total of a returned rectangle, [crop['score']['total']]. *)
Definition rect_total (r : Rect float64) : float64 := s_total (r_score r).

(** * Properties *)

(** ** [range] against the specification's progressions *)

Lemma descending_range (fuel : nat) (i lo d : Z) :
  (0 < d)%Z -> (i - lo <= Z.of_nat fuel)%Z ->
  descending fuel i lo d
  = map (fun k => (i + Z.of_nat k * - d)%Z) (seq 0 (range_len i lo (- d))).
Proof.
  intros Hd. revert i. induction fuel as [|fuel IH]; intros i Hfuel.
  - cbn [descending]. unfold range_len.
    destruct (0 <? - d)%Z eqn:E; [apply Z.ltb_lt in E; lia|].
    replace (Z.to_nat ((i - lo - - d - 1) / - - d)) with O; [reflexivity|].
    rewrite Z.opp_involutive.
    assert ((i - lo - - d - 1) / d <= 0)%Z; [|lia].
    apply Z.lt_succ_r. apply Z.div_lt_upper_bound; lia.
  - cbn [descending]. unfold range_len.
    destruct (0 <? - d)%Z eqn:E; [apply Z.ltb_lt in E; lia|].
    rewrite Z.opp_involutive.
    destruct (lo <? i)%Z eqn:Hlo.
    + apply Z.ltb_lt in Hlo.
      rewrite IH by lia. unfold range_len. rewrite E, Z.opp_involutive.
      replace (i - lo - - d - 1)%Z with ((i - d - lo - - d - 1) + 1 * d)%Z by lia.
      rewrite Z.div_add by lia.
      assert (0 <= (i - d - lo - - d - 1) / d)%Z by (apply Z.div_pos; lia).
      rewrite Z2Nat.inj_add by lia.
      replace (Z.to_nat 1) with 1%nat by reflexivity.
      rewrite Nat.add_comm. cbn [Nat.add seq map].
      f_equal; [lia|].
      rewrite <- seq_shift, map_map. apply map_ext. intros k. lia.
    + apply Z.ltb_ge in Hlo.
      replace (Z.to_nat ((i - lo - - d - 1) / d)) with O; [reflexivity|].
      assert ((i - lo - - d - 1) / d <= 0)%Z; [|lia].
      apply Z.lt_succ_r. apply Z.div_lt_upper_bound; lia.
Qed.

Lemma ascending_range (fuel : nat) (i bound step : Z) :
  (0 < step)%Z -> (bound - i <= Z.of_nat fuel)%Z ->
  ascending fuel i bound step
  = map (fun k => (i + Z.of_nat k * step)%Z) (seq 0 (range_len i bound step)).
Proof.
  intros Hs. revert i. induction fuel as [|fuel IH]; intros i Hfuel.
  - cbn [ascending]. unfold range_len.
    destruct (0 <? step)%Z eqn:E; [|apply Z.ltb_ge in E; lia].
    replace (Z.to_nat ((bound - i + step - 1) / step)) with O; [reflexivity|].
    assert ((bound - i + step - 1) / step <= 0)%Z; [|lia].
    apply Z.lt_succ_r. apply Z.div_lt_upper_bound; lia.
  - cbn [ascending]. unfold range_len.
    destruct (0 <? step)%Z eqn:E; [|apply Z.ltb_ge in E; lia].
    destruct (i <? bound)%Z eqn:Hb.
    + apply Z.ltb_lt in Hb.
      rewrite IH by lia. unfold range_len. rewrite E.
      replace (bound - i + step - 1)%Z with ((bound - (i + step) + step - 1) + 1 * step)%Z by lia.
      rewrite Z.div_add by lia.
      assert (0 <= (bound - (i + step) + step - 1) / step)%Z by (apply Z.div_pos; lia).
      rewrite Z2Nat.inj_add by lia.
      replace (Z.to_nat 1) with 1%nat by reflexivity.
      rewrite Nat.add_comm. cbn [Nat.add seq map].
      f_equal; [lia|].
      rewrite <- seq_shift, map_map. apply map_ext. intros k. lia.
    + apply Z.ltb_ge in Hb.
      replace (Z.to_nat ((bound - i + step - 1) / step)) with O; [reflexivity|].
      assert ((bound - i + step - 1) / step <= 0)%Z; [|lia].
      apply Z.lt_succ_r. apply Z.div_lt_upper_bound; lia.
Qed.

Lemma py_range_scale_grid (hi lo d : Z) :
  (0 < d)%Z -> py_range hi lo (- d) = Ok (scale_grid hi lo d).
Proof.
  intros Hd. unfold py_range, scale_grid.
  destruct (- d =? 0)%Z eqn:E; [apply Z.eqb_eq in E; lia|].
  rewrite descending_range by lia. reflexivity.
Qed.

Lemma py_range_positions (bound step : Z) :
  (0 < step)%Z -> py_range 0 bound step = Ok (positions bound step).
Proof.
  intros Hs. unfold py_range, positions.
  destruct (step =? 0)%Z eqn:E; [apply Z.eqb_eq in E; lia|].
  rewrite ascending_range by lia. reflexivity.
Qed.

(** ** [crops]: the loops *)

Section CropsFacts.

Context {A : Arith}.
Variables (image_width image_height crop_width crop_height : Z).
Variable (step : Z).

Local Abbreviation x_loop := (x_loop image_width crop_width crop_height).
Local Abbreviation y_loop := (y_loop image_width image_height crop_width crop_height step).
Local Abbreviation scale_loop :=
  (scale_loop image_width image_height crop_width crop_height step).

(** The inner loop never raises and appends the row's candidates up to
    the first one that overflows. *)
Lemma x_loop_run (scale : num) (y : Z) (xs : list Z) (acc : list (Crop num)) :
  x_loop scale y xs acc
  = (acc ++ map (fun x => candidate crop_width crop_height scale x y)
                (until (x_overflows image_width crop_width scale) xs),
     Ok tt).
Proof.
  revert acc. induction xs as [|x xs IH]; intros acc; cbn [x_loop until map].
  - unfold eret. now rewrite app_nil_r.
  - destruct (x_overflows image_width crop_width scale x).
    + unfold eret. now rewrite app_nil_r.
    + unfold ebind, append. rewrite IH. cbn [map]. now rewrite <- app_assoc.
Qed.

Section NonZeroStep.

Hypothesis step_nonzero : step <> 0%Z.

Lemma py_range_ok (start stop : Z) :
  exists l, py_range start stop step = Ok l.
Proof.
  unfold py_range. destruct (step =? 0)%Z eqn:E; [apply Z.eqb_eq in E; tauto|].
  eexists; reflexivity.
Qed.

Lemma y_loop_run (scale : num) (xs ys : list Z) (acc : list (Crop num)) :
  py_range 0 image_width step = Ok xs ->
  y_loop scale ys acc
  = (acc ++ flat_map (fun y =>
              map (fun x => candidate crop_width crop_height scale x y)
                  (until (x_overflows image_width crop_width scale) xs))
              (until (y_overflows image_height crop_height scale) ys),
     Ok tt).
Proof.
  intros Hxs. revert acc.
  induction ys as [|y ys IH]; intros acc; cbn [y_loop until flat_map].
  - unfold eret. now rewrite app_nil_r.
  - destruct (y_overflows image_height crop_height scale y).
    + unfold eret. now rewrite app_nil_r.
    + unfold ebind at 1. unfold elift. rewrite Hxs.
      unfold ebind at 1. rewrite x_loop_run, IH.
      cbn [flat_map]. now rewrite <- app_assoc.
Qed.

Lemma scale_loop_run (xs ys hundredths : list Z) (acc : list (Crop num)) :
  py_range 0 image_width step = Ok xs ->
  py_range 0 image_height step = Ok ys ->
  scale_loop hundredths acc
  = (acc ++ flat_map (fun i =>
              let scale := (of_int i / of_int 100)%num in
              flat_map (fun y =>
                map (fun x => candidate crop_width crop_height scale x y)
                    (until (x_overflows image_width crop_width scale) xs))
                (until (y_overflows image_height crop_height scale) ys))
              hundredths,
     Ok tt).
Proof.
  intros Hxs Hys. revert acc.
  induction hundredths as [|i rest IH]; intros acc; cbn [scale_loop flat_map].
  - unfold eret. now rewrite app_nil_r.
  - unfold ebind at 1. unfold elift. rewrite Hys.
    unfold ebind at 1. erewrite y_loop_run by eassumption. rewrite IH.
    cbn zeta. now rewrite <- app_assoc.
Qed.

End NonZeroStep.

(** With [step = 0] the first [range] of the first iteration raises, with
    nothing appended yet. *)
Lemma scale_loop_zero_step (hundredths : list Z) (acc : list (Crop num)) :
  step = 0%Z ->
  scale_loop hundredths acc
  = (acc, match hundredths with [] => Ok tt | _ :: _ => Raise ValueError end).
Proof.
  intros Hstep. destruct hundredths as [|i rest]; cbn [scale_loop]; [reflexivity|].
  unfold ebind at 1. unfold elift, py_range. rewrite Hstep. reflexivity.
Qed.

(** An exception leaves [crops] only while its list is still empty. *)
Lemma crops_run_raise (max_scale min_scale scale_step : num)
      (acc : list (Crop num)) (e : exn) :
  crops_run image_width image_height crop_width crop_height
            max_scale min_scale scale_step step = (acc, Raise e) ->
  acc = [].
Proof.
  unfold crops_run, ebind, elift.
  destruct (scale_range max_scale min_scale scale_step) as [hundredths|e'].
  - destruct (Z.eq_dec step 0) as [Hz|Hnz].
    + rewrite scale_loop_zero_step by assumption. now intros [= <- _].
    + destruct (py_range_ok Hnz 0 image_width) as [xs Hxs].
      destruct (py_range_ok Hnz 0 image_height) as [ys Hys].
      erewrite scale_loop_run by eassumption. discriminate.
  - now intros [= <- _].
Qed.

End CropsFacts.

(** For a well-formed grid ([int(scale_step*100)] and [step] positive) the
    three loops unfold to the nested comprehension [crops_spec]: the
    hundredths of [scale_grid], per scale the rows up to the first that
    overflows, per row the columns likewise. *)
Lemma crops_follows_the_grid
        {A : Arith} (image_width image_height crop_width crop_height : Z)
        (max_scale min_scale scale_step : num) (step hi lo d : Z) :
  scale_bounds max_scale min_scale scale_step = Ok (hi, lo, d) ->
  (0 < d)%Z -> (0 < step)%Z ->
  crops image_width image_height crop_width crop_height
        max_scale min_scale scale_step step
  = match crops_spec image_width image_height crop_width crop_height
                     hi lo d step with
    | [] => Raise ValueError
    | c :: cs => Ok (c :: cs)
    end.
Proof.
  intros Hb Hd Hs.
  unfold crops, crops_run, ebind, elift, scale_range. rewrite Hb. cbn [rbind].
  rewrite (py_range_scale_grid hi lo Hd).
  assert (Hnz : step <> 0%Z) by lia.
  erewrite scale_loop_run by (try apply py_range_positions; assumption).
  cbn [app]. fold (crops_spec image_width image_height crop_width crop_height hi lo d step).
  now destruct (crops_spec _ _ _ _ _ _ _ _).
Qed.

(** C3, the failing input: [max_scale = 1], [min_scale = 0.3] and
    [scale_step = 0.01], for 50 by 50 crops of a 15 by 15 image.  On binary64
    [0.3 - 0.01] is [0.29], the bound the specification excludes, and its
    hundred-fold is 28.999999999999996, which [int] cuts to 28: the grid runs
    down to 29 hundredths, and [crops] returns the candidate of scale
    [0.29 = min_scale - scale_step] after the one of scale 0.3.  Likewise
    [min_scale = 0.6] and [scale_step = 0.05] give the scale 0.55; and with
    [max_scale = min_scale = 0.29] the one scale of the grid is 0.28, since
    [int(0.29 * 100)] is 28. *)
Theorem crops_emits_the_excluded_scale :
  let min_scale := lit 3 10 in
  let scale_step := lit 1 100 in
  let excluded := (min_scale - scale_step)%num in
  excluded = lit 29 100
  /\ trunc (excluded * of_int 100)%num = Ok 28%Z
  /\ crops 15 15 50 50 (of_int 1) min_scale scale_step 8
     = Ok [mkCrop 0 0 (of_int 50 * lit 30 100)%num (of_int 50 * lit 30 100)%num;
           mkCrop 0 0 (of_int 50 * excluded)%num (of_int 50 * excluded)%num]
  /\ crops 60 60 100 100 (of_int 1) (lit 6 10) (lit 5 100) 8
     = Ok [mkCrop 0 0 (of_int 100 * lit 60 100)%num (of_int 100 * lit 60 100)%num;
           mkCrop 0 0 (of_int 100 * lit 55 100)%num (of_int 100 * lit 55 100)%num]
  /\ scale_range (lit 29 100) (lit 29 100) scale_step = Ok [28%Z].
Proof. vm_compute. repeat split; reflexivity. Qed.

(** ** The order of binary64 *)

Lemma SFcompare_key (x y : spec_float) :
  x <> S754_nan -> y <> S754_nan ->
  match SFcompare x y with
  | Some Lt => lt3 (key x) (key y)
  | Some Eq => key x = key y
  | Some Gt => lt3 (key y) (key x)
  | None => False
  end.
Proof.
  intros Hx Hy.
  destruct x as [sx|sx| |sx mx ex], y as [sy|sy| |sy my ey];
    try congruence;
    try (destruct sx; try destruct sy; cbn; intuition lia).
  destruct sx, sy; cbn -[Z.compare]; try lia.
  - destruct (Z.compare_spec ex ey); try lia.
    change (Pos.compare_cont Eq mx my) with (Pos.compare mx my).
    destruct (Pos.compare_spec mx my); cbn; try lia.
    subst. reflexivity.
  - destruct (Z.compare_spec ex ey); try lia.
    change (Pos.compare_cont Eq mx my) with (Pos.compare mx my).
    destruct (Pos.compare_spec mx my); cbn; try lia.
    subst. reflexivity.
Qed.

Lemma ltb_lt3 (x y : float) :
  PrimFloat.ltb x y = true <-> not_nan x /\ not_nan y /\ lt3 (fkey x) (fkey y).
Proof.
  rewrite FloatAxioms.ltb_spec. unfold SFltb, not_nan, fkey.
  split.
  - intros H.
    assert (Hx : Prim2SF x <> S754_nan)
      by (intros E; rewrite E in H; discriminate).
    assert (Hy : Prim2SF y <> S754_nan)
      by (intros E; rewrite E in H; destruct (Prim2SF x); discriminate).
    pose proof (SFcompare_key Hx Hy) as K.
    destruct (SFcompare (Prim2SF x) (Prim2SF y)) as [[]|]; try discriminate.
    auto.
  - intros (Hx & Hy & Hlt).
    pose proof (SFcompare_key Hx Hy) as K.
    destruct (SFcompare (Prim2SF x) (Prim2SF y)) as [[]|]; try tauto.
    + rewrite K in Hlt. destruct (key (Prim2SF y)) as [[? ?] ?]. cbn in Hlt. lia.
    + destruct (key (Prim2SF x)) as [[? ?] ?], (key (Prim2SF y)) as [[? ?] ?].
      cbn in *. lia.
Qed.

Lemma leb_le3 (x y : float) :
  PrimFloat.leb x y = true
  <-> not_nan x /\ not_nan y /\ (lt3 (fkey x) (fkey y) \/ fkey x = fkey y).
Proof.
  rewrite FloatAxioms.leb_spec. unfold SFleb, not_nan, fkey.
  split.
  - intros H.
    assert (Hx : Prim2SF x <> S754_nan)
      by (intros E; rewrite E in H; discriminate).
    assert (Hy : Prim2SF y <> S754_nan)
      by (intros E; rewrite E in H; destruct (Prim2SF x); discriminate).
    pose proof (SFcompare_key Hx Hy) as K.
    destruct (SFcompare (Prim2SF x) (Prim2SF y)) as [[]|]; try discriminate; auto.
  - intros (Hx & Hy & Hle).
    pose proof (SFcompare_key Hx Hy) as K.
    destruct (SFcompare (Prim2SF x) (Prim2SF y)) as [[]|]; try tauto.
    destruct (key (Prim2SF x)) as [[? ?] ?], (key (Prim2SF y)) as [[? ?] ?].
    cbn in *. destruct Hle as [Hle|Hle]; [lia|]. injection Hle as -> -> ->. lia.
Qed.

Lemma is_nan_not_nan (x : float) : PrimFloat.is_nan x = false <-> not_nan x.
Proof.
  unfold PrimFloat.is_nan, not_nan. rewrite negb_false_iff, FloatAxioms.eqb_spec.
  unfold SFeqb. split.
  - intros H E. rewrite E in H. discriminate.
  - intros H. pose proof (SFcompare_key H H) as K.
    destruct (SFcompare (Prim2SF x) (Prim2SF x)) as [[]|]; try tauto.
    + destruct (key (Prim2SF x)) as [[? ?] ?]. cbn in K. lia.
    + destruct (key (Prim2SF x)) as [[? ?] ?]. cbn in K. lia.
Qed.

Lemma leb_refl (x : float) : not_nan x -> PrimFloat.leb x x = true.
Proof. intros H. apply leb_le3. auto. Qed.

Lemma ltb_leb (x y : float) :
  PrimFloat.ltb x y = true -> PrimFloat.leb x y = true.
Proof. rewrite ltb_lt3, leb_le3. tauto. Qed.

Lemma not_ltb_leb (x y : float) :
  not_nan x -> not_nan y -> PrimFloat.ltb x y = false -> PrimFloat.leb y x = true.
Proof.
  intros Hx Hy H. apply leb_le3. repeat split; try assumption.
  destruct (PrimFloat.ltb y x) eqn:E.
  - apply ltb_lt3 in E. tauto.
  - right.
    pose proof (SFcompare_key Hx Hy) as K.
    rewrite FloatAxioms.ltb_spec in H, E. unfold SFltb in H, E. unfold fkey.
    pose proof (SFcompare_key Hy Hx) as K'.
    destruct (SFcompare (Prim2SF x) (Prim2SF y)) as [[]|]; try tauto; try discriminate.
    + now symmetry.
    + destruct (SFcompare (Prim2SF y) (Prim2SF x)) as [[]|]; try tauto; try discriminate.
      destruct (key (Prim2SF x)) as [[? ?] ?], (key (Prim2SF y)) as [[? ?] ?].
      cbn in *. lia.
Qed.

Lemma leb_ltb_trans (x y z : float) :
  PrimFloat.leb x y = true -> PrimFloat.ltb y z = true -> PrimFloat.ltb x z = true.
Proof.
  rewrite leb_le3, !ltb_lt3. unfold fkey.
  intros (Hx & Hy & Hxy) (_ & Hz & Hyz). repeat split; try assumption.
  destruct (key (Prim2SF x)) as [[? ?] ?], (key (Prim2SF y)) as [[? ?] ?],
           (key (Prim2SF z)) as [[? ?] ?].
  cbn in *. destruct Hxy as [Hxy|Hxy]; [lia|]. injection Hxy as -> -> ->. lia.
Qed.

Lemma ltb_leb_trans (x y z : float) :
  PrimFloat.ltb x y = true -> PrimFloat.leb y z = true -> PrimFloat.ltb x z = true.
Proof.
  rewrite leb_le3, !ltb_lt3. unfold fkey.
  intros (Hx & Hy & Hxy) (_ & Hz & Hyz). repeat split; try assumption.
  destruct (key (Prim2SF x)) as [[? ?] ?], (key (Prim2SF y)) as [[? ?] ?],
           (key (Prim2SF z)) as [[? ?] ?].
  cbn in *. destruct Hyz as [Hyz|Hyz]; [lia|]. injection Hyz as <- <- <-. lia.
Qed.

Lemma leb_trans (x y z : float) :
  PrimFloat.leb x y = true -> PrimFloat.leb y z = true -> PrimFloat.leb x z = true.
Proof.
  rewrite !leb_le3. unfold fkey.
  intros (Hx & Hy & Hxy) (_ & Hz & Hyz). repeat split; try assumption.
  destruct (key (Prim2SF x)) as [[? ?] ?], (key (Prim2SF y)) as [[? ?] ?],
           (key (Prim2SF z)) as [[? ?] ?].
  cbn in *.
  destruct Hxy as [Hxy|Hxy], Hyz as [Hyz|Hyz];
    try (injection Hxy as -> -> ->); try (injection Hyz as -> -> ->);
    first [left; lia | right; reflexivity].
Qed.

Lemma leb_ltb_absurd (x y : float) :
  PrimFloat.leb x y = true -> PrimFloat.ltb y x = true -> False.
Proof.
  rewrite leb_le3, ltb_lt3. unfold fkey.
  intros (_ & _ & Hxy) (_ & _ & Hyx).
  destruct (key (Prim2SF x)) as [[? ?] ?], (key (Prim2SF y)) as [[? ?] ?].
  cbn in *. destruct Hxy as [Hxy|Hxy]; [lia|]. injection Hxy as -> -> ->. lia.
Qed.

(** ** Reading a successful run backwards *)

Lemma rbind_ok {T U : Type} (r : result T) (k : T -> result U) (u : U) :
  rbind r k = Ok u -> exists t, r = Ok t /\ k t = Ok u.
Proof. destruct r as [t|e]; cbn; [eauto|discriminate]. Qed.

Ltac rbind_inv H :=
  let t := fresh "v" in
  let E := fresh "E" in
  apply rbind_ok in H; destruct H as (t & E & H).

Lemma Ok_inj {T : Type} (a b : T) : Ok a = Ok b -> a = b.
Proof. congruence. Qed.

(** The loop keeps the candidates in order and attaches a score to each. *)
Lemma select_keeps_crops {A : Arith} (Features : Type)
      (scorer : Features -> Crop num -> result (Score num))
      (feats : Features) (cs : list (Crop num)) :
  forall i top top_score scored top',
    select scorer feats i cs top top_score = Ok (scored, top') ->
    map sc_crop scored = cs.
Proof.
  induction cs as [|c cs IH]; intros i top top_score scored top' Hrun;
    cbn [select] in Hrun.
  - now injection Hrun as <- _.
  - rbind_inv Hrun. rbind_inv Hrun. destruct v0 as [rest t].
    injection Hrun as <- _. cbn [map sc_crop]. f_equal.
    destruct (s_total v >? top_score)%num; exact (IH _ _ _ _ _ E0).
Qed.

(** ** [analyse]: the running best *)

Section Selection.

Variables (Features : Type).
Variable scorer : Features -> Crop float -> result (Score float64).

(** Run from position [i] with running best [top_score]: either nothing
    beats [top_score] and [top_crop] is left alone, or the result is the
    first position whose total is the greatest. *)
Lemma select_first_maximum (feats : Features) (cs : list (Crop float64)) :
  forall i top top_score scored top',
    select scorer feats i cs top top_score = Ok (scored, top') ->
    not_nan top_score ->
    (forall s, In s scored -> not_nan (total_of s)) ->
    (top' = top
     /\ forall s, In s scored -> PrimFloat.leb (total_of s) top_score = true)
    \/ (exists k best,
           top' = Some (i + k)%nat
           /\ nth_error scored k = Some best
           /\ PrimFloat.ltb top_score (total_of best) = true
           /\ (forall s, In s scored ->
                         PrimFloat.leb (total_of s) (total_of best) = true)
           /\ (forall j s, (j < k)%nat -> nth_error scored j = Some s ->
                           PrimFloat.ltb (total_of s) (total_of best) = true)).
Proof.
  induction cs as [|c cs IH]; intros i top top_score scored top'; cbn [select].
  - intros [= <- <-] _ _. left. split; [reflexivity|]. intros s [].
  - destruct (scorer feats c) as [sc|]; cbn [rbind]; [|discriminate].
    destruct (s_total sc >? top_score)%num eqn:Hgt.
    + (* the candidate becomes the running best *)
      destruct (select scorer feats (S i) cs (Some i) (s_total sc))
        as [[rest t]|] eqn:E; cbn [rbind]; [|discriminate].
      intros [= <- <-] Hts Hnan. right.
      assert (Hsc : not_nan (s_total sc))
        by (apply (Hnan (mkScored c sc)); now left).
      destruct (IH _ _ _ _ _ E Hsc) as [[-> Hle]|(k & best & -> & Hk & Hlt & Hmax & Hfirst)].
      * intros s Hs. apply Hnan. now right.
      * exists O, (mkScored c sc). rewrite Nat.add_0_r.
        repeat split; try reflexivity; try assumption.
        -- intros s [<-|Hs]; [now apply leb_refl|now apply Hle].
        -- intros j s Hj. lia.
      * exists (S k), best. rewrite Nat.add_succ_r.
        repeat split; try assumption.
        -- eapply leb_ltb_trans; [apply ltb_leb|]; eassumption.
        -- intros s [<-|Hs]; [now apply ltb_leb|now apply Hmax].
        -- intros [|j] s Hj; cbn [nth_error].
           ++ now intros [= <-].
           ++ apply Hfirst. lia.
    + (* the running best stands *)
      destruct (select scorer feats (S i) cs top top_score)
        as [[rest t]|] eqn:E; cbn [rbind]; [|discriminate].
      intros [= <- <-] Hts Hnan.
      assert (Hsc : not_nan (s_total sc))
        by (apply (Hnan (mkScored c sc)); now left).
      assert (Hle0 : PrimFloat.leb (s_total sc) top_score = true)
        by (apply not_ltb_leb; assumption).
      destruct (IH _ _ _ _ _ E Hts) as [[-> Hle]|(k & best & -> & Hk & Hlt & Hmax & Hfirst)].
      * intros s Hs. apply Hnan. now right.
      * left. split; [reflexivity|].
        intros s [<-|Hs]; [assumption|now apply Hle].
      * right. exists (S k), best. rewrite Nat.add_succ_r.
        assert (Hhead : PrimFloat.ltb (s_total sc) (total_of best) = true)
          by (eapply leb_ltb_trans; eassumption).
        repeat split; try assumption.
        -- intros s [<-|Hs]; [now apply ltb_leb|now apply Hmax].
        -- intros [|j] s Hj; cbn [nth_error].
           ++ now intros [= <-].
           ++ apply Hfirst. lia.
Qed.

End Selection.

(** C1: when [analyse] returns, its list holds the candidates of [crops]
    in their order of generation.  When, further, no total is NaN and some
    total exceeds the initial running best [-sys.maxsize], [top_crop] is an
    element of that list whose total is the maximum of all totals, and every
    candidate generated before it has a strictly smaller total: the first
    candidate attaining the maximum wins. *)
Theorem analyse_top_crop_is_first_maximum
        (Image Features : Type) (size : Image -> Z * Z)
        (extract : Image -> option (list (Boost float64)) -> result Features)
        (scorer : Features -> Crop float -> result (Score float64))
        (image : Image) (boosts : option (list (Boost float64)))
        (crop_width crop_height : Z) (max_scale min_scale scale_step : float64)
        (step : Z) (res : Analysis float64) :
  analyse size extract scorer image boosts crop_width crop_height
          max_scale min_scale scale_step step = Ok res ->
  (forall s, In s (a_crops res) -> PrimFloat.is_nan (total_of s) = false) ->
  (exists s, In s (a_crops res)
             /\ PrimFloat.ltb (of_int (- sys_maxsize)) (total_of s) = true) ->
  crops (fst (size image)) (snd (size image)) crop_width crop_height
        max_scale min_scale scale_step step
  = Ok (map sc_crop (a_crops res))
  /\ exists k top,
       a_top_crop res = Some k
       /\ nth_error (a_crops res) k = Some top
       /\ (forall s, In s (a_crops res) ->
                     PrimFloat.leb (total_of s) (total_of top) = true)
       /\ (forall j s, (j < k)%nat -> nth_error (a_crops res) j = Some s ->
                       PrimFloat.ltb (total_of s) (total_of top) = true).
Proof.
  unfold analyse. intros Hrun Hnan (s0 & Hin0 & Hgt0).
  destruct (extract image boosts) as [feats|]; cbn [rbind] in Hrun; [|discriminate].
  destruct (size image) as [image_width image_height]. cbn [fst snd].
  destruct (crops _ _ _ _ _ _ _ _) as [cs|]; cbn [rbind] in Hrun; [|discriminate].
  destruct (select scorer feats 0 cs None (of_int (- sys_maxsize)))
    as [[scored top]|] eqn:E; cbn [rbind] in Hrun; [|discriminate].
  injection Hrun as <-. cbn [a_crops a_top_crop] in *.
  split; [f_equal; symmetry; exact (select_keeps_crops _ _ _ _ _ _ E)|].
  assert (Hinit : not_nan (of_int (- sys_maxsize)))
    by (apply is_nan_not_nan; vm_compute; reflexivity).
  destruct (select_first_maximum scorer feats cs 0 None E Hinit)
    as [[_ Hle]|(k & best & -> & Hk & _ & Hmax & Hfirst)].
  - intros s Hs. apply is_nan_not_nan. now apply Hnan.
  - exfalso. eapply leb_ltb_absurd; [apply Hle|]; eassumption.
  - exists k, best. auto.
Qed.

(** ** [thirds] and [importance] *)

(** C7 (amended): on binary64 [thirds] is 0 at 0, at 2/3 and at 4/3, and it
    is 1, the top of the bump, at 1/3. *)
Theorem thirds_zero_off_the_lines_one_on_them :
  thirds (of_int 0) = Ok (of_int 0)
  /\ thirds (lit 2 3) = Ok (of_int 0)
  /\ thirds (lit 4 3) = Ok (of_int 0)
  /\ thirds (lit 1 3) = Ok (of_int 1).
Proof. vm_compute. repeat split; reflexivity. Qed.

(** C7 as stated fails: [thirds(1/3)] is 1, not 0. *)
Lemma thirds_at_one_third_is_not_zero :
  thirds (lit 1 3) = Ok (of_int 1) /\ thirds (lit 1 3) <> Ok (of_int 0).
Proof.
  split; [vm_compute; reflexivity|].
  intros H. apply (f_equal (fun r => match r with
                                     | Ok v => PrimFloat.eqb v 0
                                     | Raise _ => true
                                     end)) in H.
  vm_compute in H. discriminate.
Qed.

(** C6, the failing input: the candidates [{x: 0, y: 0}] and [{x: 8, y: 0}]
    of width and height [w = 200 * 0.28 = 56.000000000000007], both returned
    by [crops] for a 64 by 64 image, and the points (56, 0) and (64, 0), at
    the same offset (56, 0) from the two corners.  The offset is smaller
    than the width, so both points lie inside their half-open rectangle,
    yet [importance] is -6.4042135623730916 at the first and [outside_importance]
    at the second: the guard compares [x] with the rounded sum
    [crop['x'] + crop['width']], and [8 + w] rounds to 64. *)
Theorem importance_differs_at_equal_offsets :
  let w := (of_int 200 * lit 28 100)%num in
  let first := mkCrop 0 0 w w in
  let second := mkCrop 8 0 w w in
  crops 64 64 200 200 (lit 28 100) (lit 28 100) (lit 1 10) 8
  = Ok [first; second; mkCrop 0 8 w w; mkCrop 8 8 w w]
  /\ (of_int (56 - c_x first) <? c_width first)%num = true
  /\ (of_int (64 - c_x second) <? c_width second)%num = true
  /\ (56 - c_x first = 64 - c_x second)%Z
  /\ importance default first 56 0 = Ok (-0x1.99dea28fbf7e5p+2)%float
  /\ importance default second 64 0 = Ok (outside_importance default)
  /\ outside_importance default = (-0.5)%float
  /\ (of_int (c_x second) + c_width second)%num = of_int 64.
Proof. vm_compute. repeat split; reflexivity. Qed.

(** ** [detect_skin] *)

(** C9 (amended): where the colour vector is shorter than 1e-6 the
    normalised colour is taken to be the zero vector, so the displacement is
    minus the reference skin colour (not zero) and the likelihood before
    masking is 1 minus the length of that colour; no exception is involved. *)
Theorem skin_of_dark_pixel_is_one_minus_reference_length
        (self : SmartCrop) (r g b : Z) :
  has_direction r g b = false ->
  let '(sr, sg, sb) := skin_color self in
  let rd := (of_int 1 * PrimFloat.opp sr)%num in
  let gd := (of_int 1 * PrimFloat.opp sg)%num in
  let bd := (of_int 1 * PrimFloat.opp sb)%num in
  skin_displacement self r g b = (rd, gd, bd)
  /\ skin_likelihood self r g b
     = (of_int 1 - PrimFloat.sqrt (rd * rd + gd * gd + bd * bd))%num.
Proof.
  intros H. unfold skin_likelihood, skin_displacement. rewrite H.
  destruct (skin_color self) as [[sr sg] sb]. split; reflexivity.
Qed.

(** C9 as stated fails: for the black pixel and the default skin colour the
    displacement is [(-0.78, -0.57, -0.44)] and the likelihood is negative,
    not 1. *)
Lemma skin_of_black_pixel_is_not_one :
  has_direction 0 0 0 = false
  /\ skin_displacement default 0 0 0
     = (PrimFloat.opp (lit 78 100), PrimFloat.opp (lit 57 100),
        PrimFloat.opp (lit 44 100))
  /\ PrimFloat.ltb (skin_likelihood default 0 0 0) (of_int 0) = true
  /\ skin_likelihood default 0 0 0 <> of_int 1.
Proof.
  repeat split; try (vm_compute; reflexivity).
  intros H. apply (f_equal (fun v => PrimFloat.ltb v 0)) in H.
  vm_compute in H. discriminate.
Qed.

(** ** [score] *)

(** When every index is computed exactly, the two loops of [score] read
    each cell once and [score] is [score_spec]. *)
Lemma sum_cells_app (self : SmartCrop) (target : TargetImage)
      (crop : Crop float64) (l1 l2 : list (Z * Z)) :
  forall acc,
    sum_cells self target crop (l1 ++ l2) acc
    = (acc' <- sum_cells self target crop l1 acc ;;
       sum_cells self target crop l2 acc')%py.
Proof.
  induction l1 as [|c l1 IH]; intros acc; cbn [app sum_cells rbind];
    [reflexivity|].
  destruct (cell_term self target crop c acc); cbn [rbind]; auto.
Qed.

Lemma py_range_multiples (n D : Z) :
  (0 < D)%Z -> (0 <= n)%Z ->
  py_range 0 (n * D) D
  = Ok (map (fun k => (Z.of_nat k * D)%Z) (seq 0 (Z.to_nat n))).
Proof.
  intros HD Hn. unfold py_range, range_len.
  destruct (Z.eqb_spec D 0); [lia|].
  destruct (Z.ltb_spec 0 D); [|lia].
  replace (n * D - 0 + D - 1)%Z with (n * D + (D - 1))%Z by lia.
  rewrite Z.div_add_l, Z.div_small, Z.add_0_r by lia.
  f_equal.
Qed.

Lemma score_x_loop_cells (self : SmartCrop) (target : TargetImage)
      (inv : float64) (crop : Crop float64) (row : nat) (cols : list nat) :
  (forall col, In col cols ->
     cell_index inv (t_width target)
                (Z.of_nat col * score_down_sample self)
                (Z.of_nat row * score_down_sample self)
     = Ok (Z.of_nat row * t_width target + Z.of_nat col)%Z) ->
  forall acc,
    score_x_loop self target inv crop (Z.of_nat row * score_down_sample self)
                 (map (fun k => (Z.of_nat k * score_down_sample self)%Z) cols)
                 acc
    = sum_cells self target crop
                (map (fun col => (Z.of_nat col, Z.of_nat row)) cols) acc.
Proof.
  induction cols as [|col cols IH]; intros Hidx acc;
    cbn [map score_x_loop sum_cells]; [reflexivity|].
  unfold score_cell, cell_term.
  rewrite (Hidx col) by now left. cbn [rbind].
  destruct (importance self crop _ _); cbn [rbind]; [|reflexivity].
  destruct (py_getitem _ _); cbn [rbind]; [|reflexivity].
  apply IH. intros c Hc. apply Hidx. now right.
Qed.

Lemma score_y_loop_cells (self : SmartCrop) (target : TargetImage)
      (inv : float64) (crop : Crop float64) (rows : list nat) :
  (0 < score_down_sample self)%Z -> (0 <= t_width target)%Z ->
  (forall row col, In row rows -> In col (seq 0 (Z.to_nat (t_width target))) ->
     cell_index inv (t_width target)
                (Z.of_nat col * score_down_sample self)
                (Z.of_nat row * score_down_sample self)
     = Ok (Z.of_nat row * t_width target + Z.of_nat col)%Z) ->
  forall acc,
    score_y_loop self target inv crop
                 (map (fun k => (Z.of_nat k * score_down_sample self)%Z) rows)
                 acc
    = sum_cells self target crop
                (flat_map (fun row =>
                             map (fun col => (Z.of_nat col, Z.of_nat row))
                                 (seq 0 (Z.to_nat (t_width target))))
                          rows)
                acc.
Proof.
  intros HD Hw. induction rows as [|row rows IH]; intros Hidx acc;
    cbn [map score_y_loop flat_map sum_cells]; [reflexivity|].
  rewrite py_range_multiples by assumption. cbn [rbind].
  rewrite sum_cells_app.
  rewrite score_x_loop_cells by (intros col Hc; apply Hidx; [now left|exact Hc]).
  destruct (sum_cells self target crop _ acc); cbn [rbind]; [|reflexivity].
  apply IH. intros r c Hr Hc. apply Hidx; [now right|exact Hc].
Qed.

Lemma score_reads_each_cell_once (self : SmartCrop) (target : TargetImage)
      (crop : Crop float64) (inv : float64) :
  (0 < score_down_sample self)%Z ->
  (0 <= t_width target)%Z -> (0 <= t_height target)%Z ->
  py_truediv 1 (score_down_sample self) = Ok inv ->
  (forall col row,
     (0 <= col < t_width target)%Z -> (0 <= row < t_height target)%Z ->
     cell_index inv (t_width target)
                (col * score_down_sample self) (row * score_down_sample self)
     = Ok (row * t_width target + col)%Z) ->
  score self target crop = score_spec self target crop.
Proof.
  intros HD Hw Hh Hinv Hidx. unfold score, score_spec, cells.
  rewrite Hinv. cbn [rbind].
  rewrite py_range_multiples by assumption. cbn [rbind].
  rewrite score_y_loop_cells; [reflexivity|assumption|assumption|].
  intros row col Hr Hc. apply in_seq in Hr, Hc. apply Hidx; lia.
Qed.

(** With the default [score_down_sample = 8] the indices of the two cells
    of [two_cells] are exact, so every candidate is scored cell by cell. *)
Example score_default_two_cells (crop : Crop float64) :
  score default two_cells crop = score_spec default two_cells crop.
Proof.
  apply score_reads_each_cell_once with (inv := lit 1 8);
    try (cbn; lia); [vm_compute; reflexivity|].
  intros col row Hc Hr. cbn [two_cells t_width t_height] in *.
  assert (row = 0%Z) as -> by lia.
  assert (col = 0%Z \/ col = 1%Z) as [-> | ->] by lia;
    vm_compute; reflexivity.
Qed.

(** C5, the failing input: with [score_down_sample = 49] the point
    [x = 49] is looked up in cell 0 again, because [49 * (1 / 49)] is
    [0.9999999999999999] on binary64 and its floor is 0.  The right-hand
    cell is never read, the left one is read twice, and the sums differ
    from the once-per-cell sums. *)
Theorem score_down_sample_49_reads_first_cell_twice :
  let self := with_down_sample default 49 in
  cell_index (lit 1 49) 2 49 0 = Ok 0%Z
  /\ (exists s s',
         score self two_cells whole_98_49 = Ok s
         /\ score_spec self two_cells whole_98_49 = Ok s'
         /\ PrimFloat.ltb (s_detail s) (s_detail s') = true).
Proof.
  cbn zeta. split; [vm_compute; reflexivity|].
  eexists. eexists.
  split; [vm_compute; reflexivity|].
  split; [vm_compute; reflexivity|].
  vm_compute. reflexivity.
Qed.

(** ** [applyBoosts] *)

Lemma nth_error_mapi_from {T U : Type} (f : Z -> T -> U) (l : list T) :
  forall (i : Z) (k : nat),
    nth_error (mapi_from f i l) k
    = option_map (f (i + Z.of_nat k)%Z) (nth_error l k).
Proof.
  induction l as [|t l IH]; intros i k.
  - now destruct k.
  - destruct k as [|k]; cbn [mapi_from nth_error option_map].
    + now rewrite Z.add_0_r.
    + rewrite IH. do 2 f_equal. lia.
Qed.

Lemma length_mapi_from {T U : Type} (f : Z -> T -> U) (l : list T) :
  forall i, length (mapi_from f i l) = length l.
Proof. induction l as [|t l IH]; intros i; cbn; [reflexivity|now rewrite IH]. Qed.

Lemma Forall_mapi_from {T U : Type} (f : Z -> T -> U) (P : T -> Prop)
      (Q : U -> Prop) (l : list T) :
  (forall i t, P t -> Q (f i t)) ->
  forall i, Forall P l -> Forall Q (mapi_from f i l).
Proof.
  intros HPQ. induction l as [|t l IH]; intros i Hl; cbn [mapi_from].
  - constructor.
  - inversion Hl; subst. constructor; auto.
Qed.

(** On non-negative bounds a Python slice is the plain interval, for an
    index inside the axis. *)
Lemma in_slice_on_image (lo hi n i : Z) :
  (0 <= lo)%Z -> (0 <= hi)%Z -> (0 <= i < n)%Z ->
  in_slice lo hi n i = ((lo <=? i)%Z && (i <? hi)%Z).
Proof.
  intros Hlo Hhi Hi. unfold in_slice, slice_bound.
  destruct (lo <? 0)%Z eqn:E1; [apply Z.ltb_lt in E1; lia|].
  destruct (hi <? 0)%Z eqn:E2; [apply Z.ltb_lt in E2; lia|].
  f_equal.
  - destruct (Z.leb_spec (Z.min lo n) i), (Z.leb_spec lo i); reflexivity || lia.
  - destruct (Z.ltb_spec i (Z.min hi n)), (Z.ltb_spec i hi); reflexivity || lia.
Qed.

Lemma shaped_add_to_slice (h w y0 y1 x0 x1 : Z) (weight : float64)
      (g : Grid float64) :
  shaped h w g -> shaped h w (add_to_slice y0 y1 x0 x1 weight g).
Proof.
  intros [Hh Hw]. unfold add_to_slice. split.
  - now rewrite length_mapi_from.
  - eapply Forall_mapi_from; [|exact Hw].
    intros i row Hrow. cbn beta.
    destruct (in_slice y0 y1 _ i); [|assumption].
    now rewrite length_mapi_from.
Qed.

Lemma cell_add_to_slice (h w y0 y1 x0 x1 r c : Z) (weight : float64)
      (g : Grid float64) :
  shaped h w g ->
  (0 <= x0)%Z -> (0 <= x1)%Z -> (0 <= y0)%Z -> (0 <= y1)%Z ->
  (0 <= r < h)%Z -> (0 <= c < w)%Z ->
  cell (add_to_slice y0 y1 x0 x1 weight g) r c
  = option_map (fun v => if covers (x0, x1, y0, y1) r c
                         then (v + weight)%num else v)
               (cell g r c).
Proof.
  intros [Hh Hw] Hx0 Hx1 Hy0 Hy1 Hr Hc.
  unfold cell, add_to_slice. rewrite nth_error_mapi_from.
  destruct (nth_error g (Z.to_nat r)) as [row|] eqn:Hrow; [|reflexivity].
  cbn [option_map].
  assert (Hlen : Z.of_nat (length row) = w).
  { rewrite Forall_forall in Hw. apply Hw. eapply nth_error_In, Hrow. }
  rewrite Z.add_0_l, Z2Nat.id by lia.
  rewrite Hh, (in_slice_on_image Hy0 Hy1 Hr).
  unfold covers.
  destruct ((y0 <=? r)%Z && (r <? y1)%Z) eqn:Hy.
  - rewrite nth_error_mapi_from, Z.add_0_l, Z2Nat.id by lia.
    rewrite Hlen, (in_slice_on_image Hx0 Hx1 Hc).
    destruct (nth_error row (Z.to_nat c)); [|reflexivity].
    cbn [option_map]. apply andb_true_iff in Hy. destruct Hy as [-> ->].
    now rewrite !andb_true_r.
  - destruct (nth_error row (Z.to_nat c)); [|reflexivity].
    cbn [option_map].
    replace ((x0 <=? c)%Z && (c <? x1)%Z && (y0 <=? r)%Z && (r <? y1)%Z)
      with false; [reflexivity|].
    rewrite <- andb_assoc, Hy. now rewrite andb_false_r.
Qed.

Lemma applyBoost_on_image (boost : Boost float64) (x0 x1 y0 y1 : Z)
      (g : Grid float64) :
  region boost = Ok (x0, x1, y0, y1) ->
  applyBoost boost g
  = Ok (add_to_slice y0 y1 x0 x1 (b_weight boost * of_int 255)%num g).
Proof.
  unfold region, applyBoost.
  destruct (trunc (b_x boost)) as [a|]; cbn [rbind]; [|discriminate].
  destruct (trunc (b_x boost + b_width boost)%num) as [b|]; cbn [rbind]; [|discriminate].
  destruct (trunc (b_y boost)) as [c|]; cbn [rbind]; [|discriminate].
  destruct (trunc (b_y boost + b_height boost)%num) as [d|]; cbn [rbind]; [|discriminate].
  now intros [= -> -> -> ->].
Qed.

Lemma applyBoost_each_on_image (h w : Z) (boosts : list (Boost float64)) :
  Forall on_image boosts ->
  forall g, shaped h w g ->
  exists g',
    applyBoost_each boosts g = Ok g'
    /\ shaped h w g'
    /\ forall r c, (0 <= r < h)%Z -> (0 <= c < w)%Z ->
                   cell g' r c = option_map (accumulated boosts r c) (cell g r c).
Proof.
  induction 1 as [|boost boosts (x0 & x1 & y0 & y1 & Hreg & Hx0 & Hx1 & Hy0 & Hy1) _ IH];
    intros g Hg; cbn [applyBoost_each].
  - exists g. split; [reflexivity|split; [assumption|]].
    intros r c _ _. unfold accumulated. cbn [fold_left].
    now destruct (cell g r c).
  - erewrite applyBoost_on_image by eassumption. cbn [rbind].
    pose proof (shaped_add_to_slice y0 y1 x0 x1
                  (b_weight boost * of_int 255)%num Hg) as Hg1.
    destruct (IH _ Hg1) as (g' & Hrun & Hshape & Hcell).
    exists g'. split; [assumption|split; [assumption|]].
    intros r c Hr Hc. rewrite (Hcell r c Hr Hc).
    erewrite cell_add_to_slice by eassumption.
    destruct (cell g r c) as [v|]; [|reflexivity].
    cbn [option_map]. unfold accumulated. cbn [fold_left]. now rewrite Hreg.
Qed.

Lemma shaped_zeros (h w : Z) :
  (0 <= h)%Z -> (0 <= w)%Z -> shaped h w (zeros h w).
Proof.
  intros Hh Hw. unfold zeros, shaped. rewrite repeat_length. split; [lia|].
  apply Forall_forall. intros row Hrow. apply repeat_spec in Hrow. subst row.
  rewrite repeat_length. lia.
Qed.

Lemma cell_zeros (h w r c : Z) :
  (0 <= r < h)%Z -> (0 <= c < w)%Z -> cell (zeros h w) r c = Some (of_int 0).
Proof.
  intros Hr Hc. unfold cell, zeros.
  rewrite nth_error_repeat by lia. apply nth_error_repeat. lia.
Qed.

Lemma cell_map {T U : Type} (f : T -> U) (g : Grid T) (r c : Z) :
  cell (map (map f) g) r c = option_map f (cell g r c).
Proof.
  unfold cell. rewrite nth_error_map.
  destruct (nth_error g (Z.to_nat r)) as [row|]; cbn [option_map]; [|reflexivity].
  apply nth_error_map.
Qed.

(** For regions whose integer bounds [int(x)], [int(x+width)], [int(y)],
    [int(y+height)] are not negative, [applyBoosts] returns, at every cell of
    the image, the cast to [uint8] of the sum that starts at 0 and adds
    [weight*255] for each region covering the cell (two overlapping regions
    of weight 1 leave 254, not 255); without regions every cell is 0. *)
Theorem applyBoosts_accumulates_and_wraps
        (boosts : list (Boost float64)) (w h : Z) :
  Forall on_image boosts -> (0 <= w)%Z -> (0 <= h)%Z ->
  (exists channel,
      applyBoosts (Some boosts) w h = Ok channel
      /\ forall r c, (0 <= r < h)%Z -> (0 <= c < w)%Z ->
           cell channel r c
           = Some (astype_uint8 (accumulated boosts r c (of_int 0))))
  /\ (exists channel,
         applyBoosts None w h = Ok channel
         /\ applyBoosts (Some []) w h = Ok channel
         /\ forall r c, (0 <= r < h)%Z -> (0 <= c < w)%Z ->
                        cell channel r c = Some 0%Z)
  /\ (exists channel,
         applyBoosts (Some overlapping) 4 2 = Ok channel
         /\ cell channel 0 2 = Some 254%Z).
Proof.
  intros Hb Hw Hh. split; [|split].
  - destruct (applyBoost_each_on_image Hb (shaped_zeros Hh Hw))
      as (g' & Hrun & _ & Hcell).
    exists (map (map astype_uint8) g'). unfold applyBoosts. rewrite Hrun.
    split; [reflexivity|].
    intros r c Hr Hc. rewrite cell_map, (Hcell r c Hr Hc), (cell_zeros Hr Hc).
    reflexivity.
  - exists (map (map astype_uint8) (zeros h w)).
    repeat split.
    intros r c Hr Hc. rewrite cell_map, (cell_zeros Hr Hc). reflexivity.
  - eexists. split; vm_compute; reflexivity.
Qed.

(** C10, the failing input: a region of weight 1 with [x = -1] and
    [width = 3] on a 4 by 1 image.  Its bounds are [[-1, 2)], it covers the
    columns 0 and 1, and the accumulated value there is 255; yet [applyBoosts]
    returns 0 in every cell, because the slice [image[0:1, -1:2]] counts the
    bound -1 from the right edge and is empty.  A region wholly to the left
    of the image, [x = -3] and [width = 2], is added to the columns 1 and 2.
    A weight that lifts the sum to [2^31 + 127] leaves 0, not 127. *)
Theorem applyBoosts_negative_bound_misses_region :
  region over_left_edge = Ok ((-1)%Z, 2%Z, 0%Z, 1%Z)
  /\ covers ((-1)%Z, 2%Z, 0%Z, 1%Z) 0 0 = true
  /\ trunc (accumulated [over_left_edge] 0 0 (of_int 0)) = Ok 255%Z
  /\ applyBoosts (Some [over_left_edge]) 4 1 = Ok [[0; 0; 0; 0]%Z]
  /\ applyBoosts (Some [left_of_image]) 4 1 = Ok [[0; 255; 255; 0]%Z]
  /\ trunc (accumulated [heavy] 0 0 (of_int 0)) = Ok (2 ^ 31 + 127)%Z
  /\ applyBoosts (Some [heavy]) 1 1 = Ok [[0%Z]].
Proof. repeat split; vm_compute; reflexivity. Qed.

(** ** Binary64: what the conversions and quotients of small integers are *)

Lemma digits2_pos_iter_xO (p : positive) (k : positive) :
  digits2_pos (Pos.iter xO p k) = (digits2_pos p + k)%positive.
Proof.
  induction k as [|k IH] using Pos.peano_ind.
  - cbn. lia.
  - rewrite Pos.iter_succ. cbn [digits2_pos]. rewrite IH. lia.
Qed.

(** A mantissa of exactly 53 bits with an exponent in range is kept as it
    is by the rounding of every operation. *)
Lemma binary_round_aux_exact (s : bool) (m : positive) (e : Z) :
  digits2_pos m = 53%positive -> (-1074 <= e <= 971)%Z ->
  binary_round_aux prec emax s (Z.pos m) e loc_Exact = S754_finite s m e.
Proof.
  intros Hd He.
  assert (Hshift : shr_fexp prec emax (Z.pos m) e loc_Exact
                   = ({| shr_m := Z.pos m; shr_r := false; shr_s := false |}, e)).
  { unfold shr_fexp, fexp, SpecFloat.emin, Zdigits2. rewrite Hd.
    change prec with 53%Z. change emax with 1024%Z.
    replace (Z.max (53 + e - 53) (3 - 1024 - 53) - e)%Z with 0%Z by lia.
    reflexivity. }
  unfold binary_round_aux. rewrite Hshift. cbn [shr_m loc_of_shr_record round_nearest_even].
  rewrite Hshift. cbn [shr_m].
  change (emax - prec)%Z with 971%Z.
  destruct (Z.leb_spec e 971); [reflexivity|lia].
Qed.

Lemma digits2_pos_bound (p : positive) :
  (Z.pos p < 2 ^ 53)%Z -> (Z.pos (digits2_pos p) <= 53)%Z.
Proof.
  intros H.
  assert (Hpow : forall q : positive, (2 ^ (Z.pos (digits2_pos q) - 1) <= Z.pos q)%Z).
  { induction q as [q IH|q IH|]; cbn [digits2_pos].
    - rewrite Pos2Z.inj_succ.
      replace (Z.succ (Z.pos (digits2_pos q)) - 1)%Z
        with (Z.succ (Z.pos (digits2_pos q) - 1))%Z by lia.
      rewrite Z.pow_succ_r by lia. lia.
    - rewrite Pos2Z.inj_succ.
      replace (Z.succ (Z.pos (digits2_pos q)) - 1)%Z
        with (Z.succ (Z.pos (digits2_pos q) - 1))%Z by lia.
      rewrite Z.pow_succ_r by lia. lia.
    - cbn. lia. }
  specialize (Hpow p).
  destruct (Z.le_gt_cases (Z.pos (digits2_pos p)) 53) as [Hle|Hgt]; [assumption|].
  exfalso.
  assert (2 ^ 53 <= 2 ^ (Z.pos (digits2_pos p) - 1))%Z
    by (apply Z.pow_le_mono_r; lia).
  lia.
Qed.

(** [float(z)] for [0 < z < 2^53] is a positive finite number. *)
Lemma of_int_small_positive (z : Z) :
  (0 < z < 2 ^ 53)%Z ->
  exists m e, Prim2SF (F64.of_int z) = S754_finite false m e.
Proof.
  intros [Hpos Hlt]. destruct z as [|p|p]; try lia.
  pose proof (digits2_pos_bound Hlt) as Hd.
  unfold F64.of_int.
  assert (Hnorm : exists m e,
             binary_normalize prec emax (Z.pos p) 0 false = S754_finite false m e
             /\ digits2_pos m = 53%positive /\ (-1074 <= e <= 971)%Z).
  { cbn [binary_normalize]. unfold binary_round, shl_align, fexp, SpecFloat.emin.
    change prec with 53%Z. change emax with 1024%Z.
    replace (Z.max (Z.pos (digits2_pos p) + 0 - 53) (3 - 1024 - 53) - 0)%Z
      with (Z.pos (digits2_pos p) - 53)%Z by lia.
    destruct (Z.pos (digits2_pos p) - 53)%Z as [|k|k] eqn:Hk; try lia.
    - exists p, 0%Z.
      rewrite binary_round_aux_exact; try lia.
      repeat split; lia.
    - exists (Pos.iter xO p k),
        (Z.max (Z.pos (digits2_pos p) + 0 - 53) (3 - 1024 - 53))%Z.
      assert (Hdig : digits2_pos (Pos.iter xO p k) = 53%positive)
        by (rewrite digits2_pos_iter_xO; lia).
      rewrite binary_round_aux_exact; try assumption; try lia.
      repeat split; try assumption; lia. }
  destruct Hnorm as (m & e & -> & Hdig & He).
  exists m, e. apply Prim2SF_SF2Prim.
  cbn [valid_binary]. unfold bounded, canonical_mantissa, fexp, SpecFloat.emin.
  rewrite Hdig. change prec with 53%Z. change emax with 1024%Z.
  apply andb_true_iff. split; [apply Z.eqb_eq|apply Z.leb_le]; lia.
Qed.

(** Rounding a non-negative mantissa with sign [s] gives a zero, a finite
    number or an infinity of that sign, never NaN. *)
Lemma shr_1_nonneg (mrs : shr_record) :
  (0 <= shr_m mrs)%Z -> (0 <= shr_m (shr_1 mrs))%Z.
Proof.
  destruct mrs as [m r s]. cbn [shr_m]. intros H.
  destruct m as [|[p|p|]|p]; cbn; lia.
Qed.

Lemma iter_shr_1_nonneg (n : positive) :
  forall mrs, (0 <= shr_m mrs)%Z -> (0 <= shr_m (iter_pos shr_1 n mrs))%Z.
Proof.
  induction n as [n IH|n IH|]; intros mrs H; cbn [iter_pos].
  - apply IH, IH, shr_1_nonneg, H.
  - apply IH, IH, H.
  - apply shr_1_nonneg, H.
Qed.

Lemma shr_fexp_nonneg (m e : Z) (l : location) :
  (0 <= m)%Z -> (0 <= shr_m (fst (shr_fexp prec emax m e l)))%Z.
Proof.
  intros H. unfold shr_fexp, shr.
  assert (H0 : (0 <= shr_m (shr_record_of_loc m l))%Z)
    by (destruct l as [|[]]; exact H).
  destruct (fexp prec emax (Zdigits2 m + e) - e)%Z; cbn [fst]; try assumption.
  now apply iter_shr_1_nonneg.
Qed.

Lemma binary_round_aux_signed (s : bool) (m e : Z) (l : location) :
  (0 <= m)%Z -> signed_number s (binary_round_aux prec emax s m e l).
Proof.
  intros H. unfold binary_round_aux.
  pose proof (shr_fexp_nonneg e l H) as H1.
  destruct (shr_fexp prec emax m e l) as [mrs' e']. cbn [fst] in H1.
  assert (H2 : (0 <= round_nearest_even (shr_m mrs') (loc_of_shr_record mrs'))%Z).
  { unfold round_nearest_even.
    destruct (loc_of_shr_record mrs') as [|[]]; try lia.
    destruct (Z.even (shr_m mrs')); lia. }
  pose proof (shr_fexp_nonneg e' loc_Exact H2) as H3.
  destruct (shr_fexp prec emax _ e' loc_Exact) as [mrs'' e'']. cbn [fst] in H3.
  destruct (shr_m mrs'') as [|q|q]; try lia.
  - constructor.
  - destruct (e'' <=? emax - prec)%Z; constructor.
Qed.

(** The quotient and the product of two positive finite numbers. *)
Lemma SFdiv_positive_signed (m1 m2 : positive) (e1 e2 : Z) :
  signed_number false
    (SF64div (S754_finite false m1 e1) (S754_finite false m2 e2)).
Proof.
  unfold SF64div, SFdiv, SFdiv_core_binary.
  set (s := (e1 - e2 - _)%Z).
  set (m' := match s with Z.pos _ => Z.shiftl (Z.pos m1) s | Z0 => Z.pos m1 | Z.neg _ => 0%Z end).
  assert (Hm' : (0 <= m')%Z).
  { subst m'. destruct s; try lia. apply Z.shiftl_nonneg. lia. }
  pose proof (Z.div_pos m' (Z.pos m2) Hm' ltac:(lia)) as Hq.
  unfold Z.div in Hq.
  destruct (Z.div_eucl m' (Z.pos m2)) as [q r]. cbn [fst xorb] in *.
  now apply binary_round_aux_signed.
Qed.

Lemma quotient_of_small_positive (a b : Z) :
  (0 < a < 2 ^ 53)%Z -> (0 < b < 2 ^ 53)%Z ->
  signed_number false (Prim2SF (F64.of_int a / F64.of_int b)%float).
Proof.
  intros Ha Hb. rewrite div_spec.
  destruct (of_int_small_positive Ha) as (m1 & e1 & ->).
  destruct (of_int_small_positive Hb) as (m2 & e2 & ->).
  apply SFdiv_positive_signed.
Qed.

Lemma zero_over_small_positive (b : Z) :
  (0 < b < 2 ^ 53)%Z -> (F64.of_int 0 / F64.of_int b)%float = 0%float.
Proof.
  intros Hb. apply Prim2SF_inj. rewrite div_spec.
  destruct (of_int_small_positive Hb) as (m2 & e2 & ->).
  reflexivity.
Qed.

Lemma small_positive_times_zero (b : Z) :
  (0 < b < 2 ^ 53)%Z -> (F64.of_int b * 0)%float = 0%float.
Proof.
  intros Hb. apply Prim2SF_inj. rewrite mul_spec.
  destruct (of_int_small_positive Hb) as (m2 & e2 & ->).
  reflexivity.
Qed.

Lemma signed_not_below_zero (x : float) :
  signed_number false (Prim2SF x) -> PrimFloat.ltb x 0 = false.
Proof.
  intros H. rewrite FloatAxioms.ltb_spec.
  change (Prim2SF 0) with (S754_zero false).
  now destruct H.
Qed.

Lemma signed_not_above_zero (x : float) :
  signed_number false (Prim2SF x) -> PrimFloat.ltb 0 x = false -> x = 0%float.
Proof.
  intros H. rewrite FloatAxioms.ltb_spec.
  change (Prim2SF 0) with (S754_zero false).
  intros Hlt. apply Prim2SF_inj. change (Prim2SF 0) with (S754_zero false).
  destruct H; [reflexivity|discriminate|discriminate].
Qed.

(** The aspect scale of a zero-area image is [0.0]. *)
Lemma scale_of_zero_area (image_width image_height width height : Z) :
  (image_width = 0 \/ image_height = 0)%Z ->
  (0 <= image_width < 2 ^ 53)%Z -> (0 <= image_height < 2 ^ 53)%Z ->
  (0 < width < 2 ^ 53)%Z -> (0 < height < 2 ^ 53)%Z ->
  py_min (of_int image_width / of_int width)%num
         (of_int image_height / of_int height)%num = 0%float.
Proof.
  intros Hzero HW HH Hw Hh. unfold py_min. cbn [of_int div ltb Float64].
  destruct (Z.eq_dec image_width 0) as [->|HWnz].
  - rewrite (zero_over_small_positive Hw).
    destruct (Z.eq_dec image_height 0) as [->|HHnz].
    + rewrite (zero_over_small_positive Hh). reflexivity.
    + rewrite signed_not_below_zero; [reflexivity|].
      apply quotient_of_small_positive; lia.
  - assert (image_height = 0%Z) as -> by lia.
    rewrite (zero_over_small_positive Hh).
    destruct (PrimFloat.ltb 0 (F64.of_int image_width / F64.of_int width)) eqn:E;
      [reflexivity|].
    apply signed_not_above_zero; [|exact E].
    apply quotient_of_small_positive; lia.
Qed.

(** ** [crop]: what is rejected before the analysis *)

Section Rejection.

Variable Image : Type.
Variable size : Image -> Z * Z.
Variable thumbnail : Image -> Z * Z -> result Image.

Lemma plan_zero_target (image : Image) (width height : Z) (prescale : bool)
      (max_scale min_scale : float64) (boosts : option (list (Boost float64))) :
  width = 0%Z \/ height = 0%Z ->
  plan size thumbnail image width height prescale max_scale min_scale boosts
  = Raise ZeroDivisionError.
Proof.
  intros H. unfold plan, py_truediv. destruct (size image) as [W H'].
  destruct (Z.eqb_spec width 0) as [_|Hw]; [reflexivity|].
  cbn [rbind].
  destruct (Z.eqb_spec height 0) as [_|Hh]; [reflexivity|tauto].
Qed.

Lemma plan_zero_area (image : Image) (width height : Z) (prescale : bool)
      (max_scale min_scale : float64) (boosts : option (list (Boost float64)))
      (image_width image_height : Z) :
  size image = (image_width, image_height) ->
  (image_width = 0 \/ image_height = 0)%Z ->
  (0 <= image_width < 2 ^ 53)%Z -> (0 <= image_height < 2 ^ 53)%Z ->
  (0 < width < 2 ^ 53)%Z -> (0 < height < 2 ^ 53)%Z ->
  plan size thumbnail image width height prescale max_scale min_scale boosts
  = Raise ZeroDivisionError.
Proof.
  intros Hsize Hzero HW HH Hw Hh. unfold plan, py_truediv. rewrite Hsize.
  destruct (Z.eqb_spec width 0) as [?|_]; [lia|].
  destruct (Z.eqb_spec height 0) as [?|_]; [lia|].
  cbn [rbind].
  rewrite (scale_of_zero_area Hzero HW HH Hw Hh).
  cbn [of_int mul floor Float64].
  rewrite (small_positive_times_zero Hw), (small_positive_times_zero Hh).
  reflexivity.
Qed.

End Rejection.

(** C8 (amended): [crop] raises [ZeroDivisionError] before anything of the
    analysis is called (whatever the feature extraction and the scoring
    would do) when the target width or height is 0, and when the image has
    zero area and both targets are positive.  (Sizes are below [2^53].) *)
Theorem crop_rejects_zero_sizes_before_analysis
        (Image Features : Type) (size : Image -> Z * Z)
        (thumbnail : Image -> Z * Z -> result Image)
        (extract : Image -> option (list (Boost float64)) -> result Features)
        (scorer : Features -> Crop float64 -> result (Score float64))
        (image : Image) (width height : Z) (prescale : bool)
        (max_scale min_scale scale_step : float64) (step : Z)
        (boosts : option (list (Boost float64))) :
  (width = 0%Z \/ height = 0%Z
   \/ ((fst (size image) = 0 \/ snd (size image) = 0)
       /\ 0 <= fst (size image) < 2 ^ 53 /\ 0 <= snd (size image) < 2 ^ 53
       /\ 0 < width < 2 ^ 53 /\ 0 < height < 2 ^ 53)%Z) ->
  crop size thumbnail extract scorer image width height prescale
       max_scale min_scale scale_step step boosts
  = Raise ZeroDivisionError.
Proof.
  intros H. unfold crop.
  assert (Hplan : plan size thumbnail image width height prescale
                       max_scale min_scale boosts = Raise ZeroDivisionError).
  { destruct H as [H|[H|(Hzero & HW & HH & Hw & Hh)]].
    - apply plan_zero_target. now left.
    - apply plan_zero_target. now right.
    - destruct (size image) as [W H'] eqn:Hsize. cbn [fst snd] in *.
      eapply plan_zero_area; eassumption. }
  rewrite Hplan. reflexivity.
Qed.

(** C8 as stated fails: with negative targets and [prescale=False] nothing
    is rejected; [crop] runs the whole analysis and returns candidates, here
    for a 16 by 16 image, and even for an image of zero width the analysis
    is entered (it is [crops] that raises, [ValueError], after the feature
    extraction). *)
Lemma crop_accepts_negative_targets :
  (exists res,
      crop_featureless (16, 16)%Z (-8) (-8) false = Ok res
      /\ length (res_crops res) = 2%nat
      /\ res_top_crop res = Some 0%nat)
  /\ crop_featureless (0, 16)%Z (-8) (-8) false = Raise ValueError.
Proof.
  split; [eexists; split; [vm_compute; reflexivity|split; reflexivity]|].
  vm_compute. reflexivity.
Qed.

(** ** What a successful run of [crops] and of [rmap] contains *)

Lemma rmap_in {T U : Type} (f : T -> result U) (xs : list T) (ys : list U) :
  rmap f xs = Ok ys ->
  forall y, In y ys -> exists x, In x xs /\ f x = Ok y.
Proof.
  revert ys. induction xs as [|x xs IH]; intros ys; cbn [rmap].
  - intros [= <-] y [].
  - destruct (f x) as [u|] eqn:Hx; [|discriminate].
    destruct (rmap f xs) as [us|]; [|discriminate].
    intros [= <-] y [<-|Hy].
    + exists x. split; [now left|assumption].
    + destruct (IH us eq_refl y Hy) as (x' & Hin & Hfx).
      exists x'. split; [now right|assumption].
Qed.

Lemma rmap_nth {T U : Type} (f : T -> result U) (xs : list T) (ys : list U) :
  rmap f xs = Ok ys ->
  forall k x, nth_error xs k = Some x ->
              exists y, nth_error ys k = Some y /\ f x = Ok y.
Proof.
  revert ys. induction xs as [|x xs IH]; intros ys; cbn [rmap].
  - intros _ [|k] x'; discriminate.
  - destruct (f x) as [u|] eqn:Hx; [|discriminate].
    destruct (rmap f xs) as [us|]; [|discriminate].
    intros [= <-] [|k] x'; cbn [nth_error].
    + intros [= <-]. eauto.
    + apply (IH us eq_refl).
Qed.

Lemma until_in (abort : Z -> bool) (l : list Z) (z : Z) :
  In z (until abort l) -> In z l /\ abort z = false.
Proof.
  induction l as [|a l IH]; cbn [until]; [intros []|].
  destruct (abort a) eqn:Ha; [intros []|].
  intros [<-|Hz]; [split; [now left|assumption]|].
  destruct (IH Hz). split; [now right|assumption].
Qed.

(** Every candidate [crops] returns was produced at a position of the two
    ranges, at a scale of the grid, and had passed both overflow tests. *)
Lemma crops_candidates {A : Arith}
      (image_width image_height crop_width crop_height : Z)
      (max_scale min_scale scale_step : num) (step : Z) (cs : list (Crop num)) :
  crops image_width image_height crop_width crop_height
        max_scale min_scale scale_step step = Ok cs ->
  exists xs ys,
    py_range 0 image_width step = Ok xs
    /\ py_range 0 image_height step = Ok ys
    /\ forall c, In c cs ->
         exists scale x y,
           c = candidate crop_width crop_height scale x y
           /\ In x xs /\ In y ys
           /\ x_overflows image_width crop_width scale x = false
           /\ y_overflows image_height crop_height scale y = false.
Proof.
  unfold crops, crops_run, ebind, elift.
  destruct (scale_range max_scale min_scale scale_step) as [hundredths|e];
    [|discriminate].
  destruct (Z.eq_dec step 0) as [Hz|Hnz].
  - rewrite scale_loop_zero_step by assumption.
    destruct hundredths; discriminate.
  - destruct (py_range_ok Hnz 0 image_width) as [xs Hxs].
    destruct (py_range_ok Hnz 0 image_height) as [ys Hys].
    erewrite scale_loop_run by eassumption. cbn [app].
    intros Hcs. exists xs, ys. split; [assumption|split; [assumption|]].
    assert (Heq : cs = flat_map (fun i =>
                    let scale := (of_int i / of_int 100)%num in
                    flat_map (fun y =>
                      map (fun x => candidate crop_width crop_height scale x y)
                          (until (x_overflows image_width crop_width scale) xs))
                      (until (y_overflows image_height crop_height scale) ys))
                    hundredths).
    { destruct (flat_map _ hundredths); [discriminate|]. now injection Hcs. }
    subst cs. intros c Hc.
    apply in_flat_map in Hc. destruct Hc as (i & _ & Hc). cbn zeta in Hc.
    apply in_flat_map in Hc. destruct Hc as (y & Hy & Hc).
    apply in_map_iff in Hc. destruct Hc as (x & <- & Hx).
    apply until_in in Hy. apply until_in in Hx.
    exists (of_int i / of_int 100)%num, x, y. tauto.
Qed.

Lemma py_range_from_zero_nonneg (stop step : Z) (l : list Z) :
  py_range 0 stop step = Ok l -> (0 <= stop)%Z ->
  forall z, In z l -> (0 <= z)%Z.
Proof.
  unfold py_range, range_len.
  destruct (Z.eqb_spec step 0) as [|Hnz]; [discriminate|].
  destruct (Z.ltb_spec 0 step) as [Hpos|Hneg];
    intros [= <-] Hstop z Hz; apply in_map_iff in Hz;
    destruct Hz as (k & <- & Hk); apply in_seq in Hk; [nia|].
  exfalso. rewrite ?Z.sub_0_l in Hk.
  assert ((- stop - step - 1) / - step <= 0)%Z; [|lia].
  apply Z.lt_succ_r. apply Z.div_lt_upper_bound; lia.
Qed.

(** The position [analyse] reports as [top_crop] is a position of its
    list. *)
Lemma select_top_in_range {A : Arith} (Features : Type)
      (scorer : Features -> Crop num -> result (Score num))
      (feats : Features) (cs : list (Crop num)) :
  forall i top top_score scored top',
    select scorer feats i cs top top_score = Ok (scored, top') ->
    length scored = length cs
    /\ (top' = top \/ exists k, top' = Some (i + k)%nat /\ (k < length cs)%nat).
Proof.
  induction cs as [|c cs IH]; intros i top top_score scored top' Hrun;
    cbn [select] in Hrun.
  - injection Hrun as <- <-. auto.
  - rbind_inv Hrun. rbind_inv Hrun. destruct v0 as [rest t].
    injection Hrun as <- <-. cbn [length].
    destruct (s_total v >? top_score)%num.
    + destruct (IH _ _ _ _ _ E0) as [Hlen [->|(k & -> & Hk)]].
      * split; [now rewrite Hlen|]. right. exists O. split; [f_equal|]; lia.
      * split; [now rewrite Hlen|]. right. exists (S k). split; [f_equal|]; lia.
    + destruct (IH _ _ _ _ _ E0) as [Hlen [->|(k & -> & Hk)]].
      * split; [now rewrite Hlen|]. now left.
      * split; [now rewrite Hlen|]. right. exists (S k). split; [f_equal|]; lia.
Qed.

(** The same run on binary64, for a 640 by 480 image and a 100 by 100
    target with prescaling: the nineteen rectangles lie inside the image. *)
Example crop_featureless_640_480_inside :
  exists res,
    crop_featureless (640, 480)%Z 100 100 true = Ok res
    /\ length (res_crops res) = 19%nat
    /\ Forall (inside_image 640 480) (res_crops res).
Proof.
  eexists. split; [vm_compute; reflexivity|]. split; [reflexivity|].
  repeat constructor; cbn; lia.
Qed.

(** ** Concrete runs *)

(** C1 at work: of the four candidates of [analyse_two_cells] the top crop
    is the first one with the greatest total. *)
Lemma analyse_top_crop_is_first_maximum_witness :
  exists res,
    analyse_two_cells = Ok res
    /\ crops 16 8 8 8 (of_int 1) (lit 9 10) (lit 1 10) 8
       = Ok (map sc_crop (a_crops res))
    /\ exists k top,
        a_top_crop res = Some k
        /\ nth_error (a_crops res) k = Some top
        /\ (forall s, In s (a_crops res) ->
                      PrimFloat.leb (total_of s) (total_of top) = true)
        /\ (forall j s, (j < k)%nat -> nth_error (a_crops res) j = Some s ->
                        PrimFloat.ltb (total_of s) (total_of top) = true).
Proof.
  eexists. split; [vm_compute; reflexivity|].
  apply (@analyse_top_crop_is_first_maximum
           (Z * Z) TargetImage size_of (fun _ _ => Ok two_cells) (score default)
           (16, 8)%Z None 8 8 (of_int 1) (lit 9 10) (lit 1 10) 8).
  - vm_compute. reflexivity.
  - intros s Hs. cbn [a_crops In] in Hs.
    repeat (destruct Hs as [<-|Hs]; [vm_compute; reflexivity|]).
    destruct Hs.
  - eexists. split; [left; reflexivity|]. vm_compute. reflexivity.
Defined.

(** C8 at work: an image of width 0. *)
Lemma crop_rejects_zero_sizes_before_analysis_witness :
  crop_featureless (0, 16)%Z 8 8 true = Raise ZeroDivisionError.
Proof.
  apply crop_rejects_zero_sizes_before_analysis.
  right. right. cbn [size_of fst snd]. lia.
Defined.

(** C9 at work: the black pixel under the default configuration. *)
Lemma skin_of_dark_pixel_is_one_minus_reference_length_witness :
  has_direction 0 0 0 = false
  /\ skin_likelihood default 0 0 0
     = (of_int 1
        - PrimFloat.sqrt
            ((of_int 1 * PrimFloat.opp (lit 78 100)) * (of_int 1 * PrimFloat.opp (lit 78 100))
             + (of_int 1 * PrimFloat.opp (lit 57 100)) * (of_int 1 * PrimFloat.opp (lit 57 100))
             + (of_int 1 * PrimFloat.opp (lit 44 100)) * (of_int 1 * PrimFloat.opp (lit 44 100))))%num.
Proof.
  assert (H : has_direction 0 0 0 = false) by (vm_compute; reflexivity).
  split; [exact H|].
  exact (proj2 (skin_of_dark_pixel_is_one_minus_reference_length default 0 0 0 H)).
Defined.

(** The two overlapping regions on a 4 by 2 image. *)
Lemma applyBoosts_accumulates_and_wraps_witness :
  exists channel,
    applyBoosts (Some overlapping) 4 2 = Ok channel
    /\ forall r c, (0 <= r < 2)%Z -> (0 <= c < 4)%Z ->
         cell channel r c
         = Some (astype_uint8 (accumulated overlapping r c (of_int 0))).
Proof.
  refine (proj1 (@applyBoosts_accumulates_and_wraps overlapping 4 2 _ _ _)).
  - repeat constructor.
    + exists 1%Z, 3%Z, 0%Z, 1%Z. split; [vm_compute; reflexivity|lia].
    + exists 2%Z, 7%Z, 0%Z, 5%Z. split; [vm_compute; reflexivity|lia].
  - lia.
  - lia.
Defined.

(** * Further properties *)

(** ** What holds for every uint8 value, by enumeration *)

Lemma in_uint8_values (z : Z) : (0 <= z <= 255)%Z -> In z uint8_values.
Proof.
  intros Hz. unfold uint8_values. apply in_map_iff.
  exists (Z.to_nat z). split; [lia|]. apply in_seq. lia.
Qed.

Lemma forall_uint8 (P : Z -> bool) :
  forallb P uint8_values = true ->
  forall z, (0 <= z <= 255)%Z -> P z = true.
Proof.
  intros H z Hz. rewrite forallb_forall in H. apply H, in_uint8_values, Hz.
Qed.

(** The same for pairs of cells, each given with its float; the floats are
    computed once. *)
Lemma forall_uint8_pairs (P : Z -> float64 -> Z -> float64 -> bool) :
  (let cells := map (fun z => (z, F64.of_int z)) uint8_values in
   forallb (fun p => forallb (fun q => P (fst p) (snd p) (fst q) (snd q)) cells)
           cells) = true ->
  forall a b, (0 <= a <= 255)%Z -> (0 <= b <= 255)%Z ->
              P a (of_int a) b (of_int b) = true.
Proof.
  cbv zeta. intros H a b Ha Hb.
  rewrite forallb_forall in H.
  specialize (H (a, F64.of_int a)).
  rewrite forallb_forall in H.
  apply (H (in_map (fun z => (z, F64.of_int z)) _ _ (in_uint8_values Ha))
           (b, F64.of_int b)).
  apply (in_map (fun z => (z, F64.of_int z)) _ _ (in_uint8_values Hb)).
Qed.

(** The conversion of uint8 cells to float keeps their order. *)
Lemma of_int_ltb_uint8 (a b : Z) :
  (0 <= a <= 255)%Z -> (0 <= b <= 255)%Z ->
  PrimFloat.ltb (F64.of_int a) (F64.of_int b) = (a <? b)%Z.
Proof.
  intros Ha Hb.
  apply Bool.eqb_prop.
  apply (forall_uint8_pairs
           (fun a fa b fb => Bool.eqb (PrimFloat.ltb fa fb) (a <? b)%Z));
    [vm_compute; reflexivity|assumption|assumption].
Qed.

Lemma np_maximum_uint8 (a b : Z) :
  (0 <= a <= 255)%Z -> (0 <= b <= 255)%Z ->
  np_maximum (of_int a) (of_int b) = of_int (Z.max a b).
Proof.
  intros Ha Hb. unfold np_maximum. cbn [ltb of_int Float64].
  rewrite of_int_ltb_uint8 by assumption.
  destruct (Z.ltb_spec a b); f_equal; lia.
Qed.

Lemma np_minimum_uint8 (a b : Z) :
  (0 <= a <= 255)%Z -> (0 <= b <= 255)%Z ->
  np_minimum (of_int a) (of_int b) = of_int (Z.min a b).
Proof.
  intros Ha Hb. unfold np_minimum. cbn [ltb of_int Float64].
  rewrite of_int_ltb_uint8 by assumption.
  destruct (Z.ltb_spec b a); f_equal; lia.
Qed.

(** ** [saturation] *)

(** The integer constants of the formulas, as the floats they denote. *)
Ltac float_constants :=
  change (@of_int Float64 0) with 0%float;
  change (@of_int Float64 1) with 1%float;
  change (@of_int Float64 2) with 2%float;
  change (@of_int Float64 255) with 255%float.


(** The saturation of a pixel is that of its largest and smallest
    channel. *)
Lemma saturation_pixel_extremes (r g b : Z) :
  (0 <= r <= 255)%Z -> (0 <= g <= 255)%Z -> (0 <= b <= 255)%Z ->
  saturation_pixel r g b
  = saturation_of (of_int (Z.max (Z.max r g) b)) (of_int (Z.min (Z.min r g) b)).
Proof.
  intros Hr Hg Hb. unfold saturation_pixel.
  rewrite (np_maximum_uint8 Hr Hg), (np_minimum_uint8 Hr Hg).
  rewrite np_maximum_uint8, np_minimum_uint8 by lia.
  reflexivity.
Qed.

(** Every pair [minimum <= maximum] of uint8 values gives a saturation in
    [[0; 1]], which is 0 only for equal values. *)
Lemma saturation_of_uint8 (hi lo : Z) :
  (0 <= lo <= hi)%Z -> (hi <= 255)%Z ->
  let v := saturation_of (of_int hi) (of_int lo) in
  PrimFloat.leb (of_int 0) v = true
  /\ PrimFloat.leb v (of_int 1) = true
  /\ PrimFloat.eqb v (of_int 0) = (hi =? lo)%Z.
Proof.
  intros Hlo Hhi.
  pose proof (forall_uint8_pairs
                (fun hi fhi lo flo =>
                   let v := saturation_of fhi flo in
                   (hi <? lo)%Z
                   || (PrimFloat.leb (of_int 0) v && PrimFloat.leb v (of_int 1)
                       && Bool.eqb (PrimFloat.eqb v (of_int 0)) (hi =? lo)%Z)))
    as H.
  match type of H with
  | ?A -> _ =>
      assert (Hcheck : A)
        by (unfold saturation_of; float_constants; vm_compute; reflexivity)
  end.
  specialize (H Hcheck hi lo ltac:(lia) ltac:(lia)). clear Hcheck.
  cbv beta zeta in H. cbv zeta.
  assert (E : (hi <? lo)%Z = false) by (apply Z.ltb_ge; lia).
  rewrite E in H. cbn [orb] in H.
  apply andb_true_iff in H. destruct H as [H H3].
  apply andb_true_iff in H. destruct H as [H1 H2].
  apply Bool.eqb_prop in H3. auto.
Qed.

(** [saturation] maps every 8-bit pixel into [[0; 1]] (never NaN, never a
    division by zero), and to 0 exactly the grey pixels, black included. *)
Theorem saturation_in_unit_interval_zero_on_grey (r g b : Z) :
  (0 <= r <= 255)%Z -> (0 <= g <= 255)%Z -> (0 <= b <= 255)%Z ->
  PrimFloat.leb (of_int 0) (saturation_pixel r g b) = true
  /\ PrimFloat.leb (saturation_pixel r g b) (of_int 1) = true
  /\ (PrimFloat.eqb (saturation_pixel r g b) (of_int 0) = true
      <-> r = g /\ g = b).
Proof.
  intros Hr Hg Hb. rewrite saturation_pixel_extremes by assumption.
  destruct (@saturation_of_uint8 (Z.max (Z.max r g) b) (Z.min (Z.min r g) b))
    as (H0 & H1 & Hz); try lia.
  split; [exact H0|]. split; [exact H1|].
  rewrite Hz. rewrite Z.eqb_eq. lia.
Qed.

(** ** [detect_saturation] *)

Lemma astype_uint8_range (v : float64) : (0 <= astype_uint8 v <= 255)%Z.
Proof.
  unfold astype_uint8. destruct (trunc v) as [z|]; [|lia].
  destruct ((- 2 ^ 31 <=? z) && (z <? 2 ^ 31))%Z; [|lia].
  pose proof (Z.mod_pos_bound z 256). lia.
Qed.

(** [detect_saturation] fails in one way only: with [ZeroDivisionError],
    when [1 - saturation_threshold] is zero, as it is for the threshold 1,
    whatever the image.  Otherwise it returns one cell per pixel, each in
    [[0; 255]]. *)
Theorem detect_saturation_fails_only_on_threshold_one
        (self : SmartCrop) (pixels : list (Z * (Z * Z * Z))) :
  (saturation_threshold self = of_int 1 ->
   detect_saturation self pixels = Raise ZeroDivisionError)
  /\ (forall e, detect_saturation self pixels = Raise e ->
                e = ZeroDivisionError
                /\ F64.is_zero (of_int 1 - saturation_threshold self)%num = true)
  /\ (F64.is_zero (of_int 1 - saturation_threshold self)%num = false ->
      exists channel,
        detect_saturation self pixels = Ok channel
        /\ length channel = length pixels
        /\ Forall (fun v => (0 <= v <= 255)%Z) channel).
Proof.
  unfold detect_saturation, py_div. cbn [is_zero Float64].
  split; [|split].
  - intros ->. reflexivity.
  - intros e.
    destruct (F64.is_zero (of_int 1 - saturation_threshold self)%num);
      cbn [rbind]; [|discriminate].
    intros [= <-]. split; reflexivity.
  - intros ->. cbn [rbind]. eexists. split; [reflexivity|].
    split; [apply length_map|].
    apply Forall_forall. intros v Hv. apply in_map_iff in Hv.
    destruct Hv as ([cie [[r g] b]] & <- & _). apply astype_uint8_range.
Qed.

(** With the default parameters a saturated cell stays below 256 before
    the cast. *)
Lemma saturation_gain_default_uint8 (hi lo : Z) :
  (0 <= lo <= hi)%Z -> (hi <= 255)%Z ->
  let sat := saturation_of (of_int hi) (of_int lo) in
  let x := ((sat - saturation_threshold default)
            * (of_int 255 / (of_int 1 - saturation_threshold default)))%num in
  (sat >? saturation_threshold default)%num = true ->
  exists z, trunc x = Ok z /\ (0 <= z <= 255)%Z.
Proof.
  intros Hlo Hhi.
  pose proof (forall_uint8_pairs
                (fun hi fhi lo flo =>
                   let sat := saturation_of fhi flo in
                   let x := ((sat - saturation_threshold default)
                             * (of_int 255
                                / (of_int 1 - saturation_threshold default)))%num in
                   (hi <? lo)%Z
                   || negb (sat >? saturation_threshold default)%num
                   || match trunc x with
                      | Ok z => (0 <=? z)%Z && (z <=? 255)%Z
                      | Raise _ => false
                      end))
    as H.
  match type of H with
  | ?A -> _ =>
      assert (Hcheck : A)
        by (unfold saturation_of;
            (let t := eval vm_compute in (saturation_threshold default) in
             change (saturation_threshold default) with t);
            float_constants; vm_compute; reflexivity)
  end.
  specialize (H Hcheck hi lo ltac:(lia) ltac:(lia)). clear Hcheck.
  cbv beta zeta in H. cbv zeta.
  assert (E : (hi <? lo)%Z = false) by (apply Z.ltb_ge; lia).
  rewrite E in H. cbn [orb] in H.
  intros Hsat. rewrite Hsat in H. cbn [negb orb] in H.
  destruct (trunc _) as [z|]; [|discriminate].
  exists z. split; [reflexivity|]. lia.
Qed.

(** With the default parameters [detect_saturation] never wraps around:
    for every image of 8-bit pixels each cell of the channel is [int] of
    the float computed for it, a value in [[0; 255]]. *)
Theorem detect_saturation_default_never_wraps
        (pixels : list (Z * (Z * Z * Z))) :
  Forall (fun '(_, (r, g, b)) =>
            (0 <= r <= 255)%Z /\ (0 <= g <= 255)%Z /\ (0 <= b <= 255)%Z)
         pixels ->
  exists gain channel,
    py_div (of_int 255) (of_int 1 - saturation_threshold default)%num = Ok gain
    /\ detect_saturation default pixels = Ok channel
    /\ Forall2 (fun '(cie, (r, g, b)) v =>
                  trunc (saturation_cell default gain cie (saturation_pixel r g b))
                  = Ok v
                  /\ (0 <= v <= 255)%Z)
               pixels channel.
Proof.
  intros Hpixels.
  assert (Hgain : py_div (of_int 255) (of_int 1 - saturation_threshold default)%num
                  = Ok (of_int 255 / (of_int 1 - saturation_threshold default))%num)
    by (vm_compute; reflexivity).
  eexists. eexists. split; [exact Hgain|].
  unfold detect_saturation. rewrite Hgain. cbn [rbind].
  split; [reflexivity|].
  induction Hpixels as [|[cie [[r g] b]] pixels (Hr & Hg & Hb) _ IH];
    cbn [map]; constructor; [|exact IH].
  unfold saturation_cell, astype_uint8.
  destruct (saturation_mask default cie (saturation_pixel r g b)) eqn:Hmask.
  - unfold saturation_mask in Hmask.
    apply andb_true_iff in Hmask. destruct Hmask as [Hmask _].
    apply andb_true_iff in Hmask. destruct Hmask as [Hsat _].
    rewrite saturation_pixel_extremes in * by assumption.
    assert (Hlo : (0 <= Z.min (Z.min r g) b <= Z.max (Z.max r g) b)%Z) by lia.
    assert (Hhi : (Z.max (Z.max r g) b <= 255)%Z) by lia.
    destruct (saturation_gain_default_uint8 Hlo Hhi Hsat) as (z & -> & Hz).
    replace ((- 2 ^ 31 <=? z) && (z <? 2 ^ 31))%Z with true
      by (symmetry; apply andb_true_iff; split;
          [apply Z.leb_le|apply Z.ltb_lt]; lia).
    rewrite Z.mod_small by lia. split; [reflexivity|exact Hz].
  - replace (trunc (of_int 0)) with (Ok 0%Z :> result Z)
      by (vm_compute; reflexivity).
    split; [reflexivity|]. vm_compute. split; discriminate.
Qed.

(** ** [applyBoosts] on arbitrary regions *)

Lemma applyBoost_region (boost : Boost float64) (g : Grid float64) :
  applyBoost boost g
  = match region boost with
    | Ok (x0, x1, y0, y1) =>
        Ok (add_to_slice y0 y1 x0 x1 (b_weight boost * of_int 255)%num g)
    | Raise e => Raise e
    end.
Proof.
  unfold region, applyBoost.
  destruct (trunc (b_x boost)) as [a|]; cbn [rbind]; [|reflexivity].
  destruct (trunc (b_x boost + b_width boost)%num) as [b|]; cbn [rbind]; [|reflexivity].
  destruct (trunc (b_y boost)) as [c|]; cbn [rbind]; [|reflexivity].
  destruct (trunc (b_y boost + b_height boost)%num) as [d|]; cbn [rbind]; reflexivity.
Qed.

(** The loop of [applyBoosts] keeps the shape of the array, and stops at
    the first region with a bound that [int] refuses. *)
Lemma applyBoost_each_shaped (h w : Z) (boosts : list (Boost float64)) :
  forall g, shaped h w g ->
    (forall g', applyBoost_each boosts g = Ok g' -> shaped h w g')
    /\ ((exists g', applyBoost_each boosts g = Ok g')
        <-> Forall (fun boost => exists bounds, region boost = Ok bounds) boosts).
Proof.
  induction boosts as [|boost boosts IH]; intros g Hg; cbn [applyBoost_each].
  - split; [now intros g' [= <-]|]. split; [constructor|eauto].
  - rewrite applyBoost_region.
    destruct (region boost) as [[[[x0 x1] y0] y1]|e] eqn:Hreg; cbn [rbind].
    + pose proof (shaped_add_to_slice y0 y1 x0 x1
                    (b_weight boost * of_int 255)%num Hg) as Hg1.
      destruct (IH _ Hg1) as [Hshape Hok].
      split; [exact Hshape|].
      rewrite Hok. split.
      * intros H. constructor; [eauto|exact H].
      * intros H. now inversion H.
    + split; [discriminate|]. split.
      * intros [g' H]. discriminate.
      * intros H. inversion H as [|? ? [bounds Hb] _]. congruence.
Qed.

Lemma shaped_map {T U : Type} (f : T -> U) (h w : Z) (g : Grid T) :
  shaped h w g -> shaped h w (map (map f) g).
Proof.
  intros [Hh Hw]. split; [now rewrite length_map|].
  apply Forall_forall. intros row Hrow. apply in_map_iff in Hrow.
  destruct Hrow as (row' & <- & Hin). rewrite length_map.
  rewrite Forall_forall in Hw. now apply Hw.
Qed.

(** Whatever the regions, on or off the image, [applyBoosts] returns a
    channel of the image's shape with cells in [[0; 255]]; it fails only when
    [int] refuses a bound of some region (NaN or an infinity). *)
Theorem applyBoosts_returns_channel_of_image_shape
        (boosts : list (Boost float64)) (w h : Z) :
  (0 <= w)%Z -> (0 <= h)%Z ->
  (forall channel,
      applyBoosts (Some boosts) w h = Ok channel ->
      shaped h w channel
      /\ forall r c v, cell channel r c = Some v -> (0 <= v <= 255)%Z)
  /\ ((exists channel, applyBoosts (Some boosts) w h = Ok channel)
      <-> Forall (fun boost => exists bounds, region boost = Ok bounds) boosts).
Proof.
  intros Hw Hh. unfold applyBoosts.
  destruct (applyBoost_each_shaped boosts (shaped_zeros Hh Hw)) as [Hshape Hok].
  split.
  - intros channel Hrun.
    destruct (applyBoost_each boosts (zeros h w)) as [g'|] eqn:E;
      cbn [rbind] in Hrun; [|discriminate].
    injection Hrun as <-. split; [apply shaped_map, Hshape; reflexivity|].
    intros r c v. rewrite cell_map.
    match goal with
    | |- option_map _ ?t = _ -> _ => destruct t as [x|]
    end; cbn [option_map]; intros Hv; [|discriminate Hv].
    injection Hv as <-. apply astype_uint8_range.
  - rewrite <- Hok. split.
    + intros [channel Hrun].
      destruct (applyBoost_each boosts (zeros h w)) as [g'|];
        cbn [rbind] in Hrun; [eauto|discriminate].
    + intros [g' ->]. cbn [rbind]. eauto.
Qed.

(** ** [crops]: what a call that returns has been given *)

Lemma flat_map_nil {T U : Type} (l : list T) :
  flat_map (fun _ : T => @nil U) l = [].
Proof. induction l as [|t l IH]; cbn; [reflexivity|exact IH]. Qed.

Lemma py_range_backwards_empty (stop step : Z) :
  (0 <= stop)%Z -> (step < 0)%Z -> py_range 0 stop step = Ok [].
Proof.
  intros Hstop Hstep. unfold py_range, range_len.
  destruct (Z.eqb_spec step 0); [lia|].
  destruct (Z.ltb_spec 0 step); [lia|].
  replace (Z.to_nat ((0 - stop - step - 1) / - step)) with O; [reflexivity|].
  destruct (Z.le_gt_cases 0 (0 - stop - step - 1)) as [Hnum|Hnum].
  - rewrite Z.div_small by lia. reflexivity.
  - assert ((0 - stop - step - 1) / - step < 0)%Z
      by (apply Z.div_lt_upper_bound; lia).
    lia.
Qed.

(** [crops] returns only when [step] is positive and [int(scale_step *
    100)] is not zero: with [step <= 0] or a [scale_step] below one
    hundredth it raises, whatever the image. *)
Theorem crops_returns_only_for_positive_step
        {A : Arith} (image_width image_height crop_width crop_height : Z)
        (max_scale min_scale scale_step : num) (step : Z)
        (cs : list (Crop num)) :
  (0 <= image_height)%Z ->
  crops image_width image_height crop_width crop_height
        max_scale min_scale scale_step step = Ok cs ->
  (0 < step)%Z
  /\ exists hi lo d,
       scale_bounds max_scale min_scale scale_step = Ok (hi, lo, d)
       /\ d <> 0%Z.
Proof.
  intros HH. unfold crops, crops_run, ebind, elift, scale_range.
  destruct (scale_bounds max_scale min_scale scale_step)
    as [[[hi lo] d]|e]; cbn [rbind]; [|discriminate].
  unfold py_range at 1.
  destruct (Z.eqb_spec (- d) 0) as [|Hd]; [discriminate|].
  set (hundredths := map _ _).
  intros Hrun.
  assert (Hstep : (0 < step)%Z).
  { destruct (Z.lt_trichotomy step 0) as [Hneg|[Hzero|Hpos]];
      [exfalso|exfalso|exact Hpos].
    - assert (Hnz : step <> 0%Z) by lia.
      destruct (py_range_ok Hnz 0 image_width) as [xs Hxs].
      rewrite (scale_loop_run image_width image_height crop_width crop_height
                 step hundredths [] Hxs (py_range_backwards_empty HH Hneg))
        in Hrun.
      cbn [until flat_map app] in Hrun.
      rewrite flat_map_nil in Hrun. discriminate.
    - rewrite scale_loop_zero_step in Hrun by assumption.
      destruct hundredths; discriminate. }
  split; [exact Hstep|].
  exists hi, lo, d. split; [reflexivity|lia].
Qed.

(** ** [score] on a crop without area *)

Lemma is_zero_spec (x : float64) :
  F64.is_zero x = true <-> exists s, Prim2SF x = S754_zero s.
Proof.
  unfold F64.is_zero. rewrite FloatAxioms.eqb_spec.
  change (Prim2SF 0) with (S754_zero false). unfold SFeqb, SFcompare.
  destruct (Prim2SF x) as [s|s| |s m e].
  - split; eauto.
  - split; [destruct s; discriminate|intros [? ?]; discriminate].
  - split; [discriminate|intros [? ?]; discriminate].
  - split; [destruct s; discriminate|intros [? ?]; discriminate].
Qed.

(** A zero times a finite number is a zero. *)
Lemma zero_area (w h : float64) :
  (F64.is_zero w = true /\ is_finite h = true)
  \/ (is_finite w = true /\ F64.is_zero h = true) ->
  F64.is_zero (w * h)%float = true.
Proof.
  intros H. apply is_zero_spec. rewrite mul_spec. unfold is_finite in H.
  destruct H as [[Hw Hh]|[Hw Hh]].
  - apply is_zero_spec in Hw. destruct Hw as [s ->].
    destruct (Prim2SF h) as [s'|s'| |s' m e]; try discriminate; cbn; eauto.
  - apply is_zero_spec in Hh. destruct Hh as [s ->].
    destruct (Prim2SF w) as [s'|s'| |s' m e]; try discriminate; cbn; eauto.
Qed.

(** [score] never returns for a crop whose width or height is zero (the
    other side being finite): once the map has been scanned, the division by
    the crop's area raises [ZeroDivisionError]. *)
Theorem score_raises_on_crop_without_area
        (self : SmartCrop) (target : TargetImage) (crop : Crop float64) :
  (F64.is_zero (c_width crop) = true /\ is_finite (c_height crop) = true)
  \/ (is_finite (c_width crop) = true /\ F64.is_zero (c_height crop) = true) ->
  raises (score self target crop)
  /\ forall inv ys acc,
       py_truediv 1 (score_down_sample self) = Ok inv ->
       py_range 0 (t_height target * score_down_sample self)
                (score_down_sample self) = Ok ys ->
       score_y_loop self target inv crop ys
                    (mkSums (of_int 0) (of_int 0) (of_int 0) (of_int 0)) = Ok acc ->
       score self target crop = Raise ZeroDivisionError.
Proof.
  intros Harea. apply zero_area in Harea.
  assert (Hdiv : forall x : float64,
             py_div x (c_width crop * c_height crop)%num = Raise ZeroDivisionError).
  { intros x. unfold py_div. cbn [is_zero mul Float64]. now rewrite Harea. }
  unfold score, raises. split.
  - destruct (py_truediv 1 (score_down_sample self)) as [inv|e];
      cbn [rbind]; [|eauto].
    destruct (py_range _ _ _) as [ys|e]; cbn [rbind]; [|eauto].
    destruct (score_y_loop _ _ _ _ _ _) as [acc|e]; cbn [rbind]; [|eauto].
    rewrite Hdiv. cbn [rbind]. eauto.
  - intros inv ys acc H1 H2 H3.
    rewrite H1. cbn [rbind]. rewrite H2. cbn [rbind]. rewrite H3. cbn [rbind].
    rewrite Hdiv. reflexivity.
Qed.

(** ** [score] with the default down-sampling *)

Lemma Zpos_iter_xO (p k : positive) :
  Z.pos (Pos.iter xO p k) = (Z.pos p * 2 ^ Z.pos k)%Z.
Proof.
  induction k as [|k IH] using Pos.peano_ind.
  - cbn [Pos.iter]. lia.
  - rewrite Pos.iter_succ, Pos2Z.inj_xO, IH, Pos2Z.inj_succ.
    rewrite Z.pow_succ_r by lia. lia.
Qed.

(** [float(z)] for [0 < z < 2^53] is exact: a mantissa of 53 bits that is
    [z] shifted left. *)
Lemma of_int_small_exact (z : Z) :
  (0 < z < 2 ^ 53)%Z ->
  exists m e,
    Prim2SF (F64.of_int z) = S754_finite false m e
    /\ digits2_pos m = 53%positive
    /\ (-52 <= e <= 0)%Z
    /\ Z.pos m = (z * 2 ^ (- e))%Z.
Proof.
  intros [Hpos Hlt]. destruct z as [|p|p]; try lia.
  pose proof (digits2_pos_bound Hlt) as Hd.
  assert (Hd1 : (1 <= Z.pos (digits2_pos p))%Z) by lia.
  unfold F64.of_int.
  assert (Hnorm : exists m e,
             binary_normalize prec emax (Z.pos p) 0 false = S754_finite false m e
             /\ digits2_pos m = 53%positive /\ (-52 <= e <= 0)%Z
             /\ Z.pos m = (Z.pos p * 2 ^ (- e))%Z).
  { cbn [binary_normalize]. unfold binary_round, shl_align, fexp, SpecFloat.emin.
    change prec with 53%Z. change emax with 1024%Z.
    replace (Z.max (Z.pos (digits2_pos p) + 0 - 53) (3 - 1024 - 53) - 0)%Z
      with (Z.pos (digits2_pos p) - 53)%Z by lia.
    destruct (Z.pos (digits2_pos p) - 53)%Z as [|k|k] eqn:Hk; try lia.
    - exists p, 0%Z.
      rewrite binary_round_aux_exact; try lia.
      repeat split; lia.
    - exists (Pos.iter xO p k),
        (Z.max (Z.pos (digits2_pos p) + 0 - 53) (3 - 1024 - 53))%Z.
      assert (Hdig : digits2_pos (Pos.iter xO p k) = 53%positive)
        by (rewrite digits2_pos_iter_xO; lia).
      rewrite binary_round_aux_exact; try assumption; try lia.
      repeat split; try assumption; try lia.
      rewrite Zpos_iter_xO. do 2 f_equal. lia. }
  destruct Hnorm as (m & e & -> & Hdig & He & Hm).
  exists m, e. split; [|auto].
  apply Prim2SF_SF2Prim.
  cbn [valid_binary]. unfold bounded, canonical_mantissa, fexp, SpecFloat.emin.
  rewrite Hdig. change prec with 53%Z. change emax with 1024%Z.
  apply andb_true_iff. split; [apply Z.eqb_eq|apply Z.leb_le]; lia.
Qed.

Lemma iter_pos_iter {T : Type} (f : T -> T) (n : positive) :
  forall x, iter_pos f n x = Pos.iter f x n.
Proof.
  induction n as [n IH|n IH|]; intros x; cbn [iter_pos Pos.iter].
  - rewrite !IH. rewrite <- !Pos.iter_swap. reflexivity.
  - now rewrite !IH.
  - reflexivity.
Qed.

(** Shifting right what was shifted left loses nothing. *)
Lemma shr_iter_xO (m k : positive) :
  iter_pos shr_1 k
    {| shr_m := Z.pos (Pos.iter xO m k); shr_r := false; shr_s := false |}
  = {| shr_m := Z.pos m; shr_r := false; shr_s := false |}.
Proof.
  rewrite iter_pos_iter.
  induction k as [|k IH] using Pos.peano_ind.
  - reflexivity.
  - rewrite !Pos.iter_succ, <- Pos.iter_swap. cbn [shr_1 orb]. exact IH.
Qed.

(** A 53-bit mantissa shifted left by [k] rounds to itself. *)
Lemma binary_round_aux_shifted (s : bool) (m k : positive) (e : Z) :
  digits2_pos m = 53%positive -> (-1074 <= e <= 971)%Z ->
  binary_round_aux prec emax s (Z.pos (Pos.iter xO m k)) (e - Z.pos k) loc_Exact
  = S754_finite s m e.
Proof.
  intros Hd He.
  assert (Hshift : shr_fexp prec emax (Z.pos (Pos.iter xO m k)) (e - Z.pos k)
                            loc_Exact
                   = ({| shr_m := Z.pos m; shr_r := false; shr_s := false |}, e)).
  { unfold shr_fexp, fexp, SpecFloat.emin, Zdigits2.
    rewrite digits2_pos_iter_xO, Hd.
    change prec with 53%Z. change emax with 1024%Z.
    replace (Z.max (Z.pos (53 + k) + (e - Z.pos k) - 53) (3 - 1024 - 53)
             - (e - Z.pos k))%Z with (Z.pos k) by lia.
    cbn [shr shr_record_of_loc]. rewrite shr_iter_xO. f_equal. lia. }
  unfold binary_round_aux. rewrite Hshift.
  cbn [shr_m loc_of_shr_record round_nearest_even].
  assert (Hkeep : shr_fexp prec emax (Z.pos m) e loc_Exact
                  = ({| shr_m := Z.pos m; shr_r := false; shr_s := false |}, e)).
  { unfold shr_fexp, fexp, SpecFloat.emin, Zdigits2. rewrite Hd.
    change prec with 53%Z. change emax with 1024%Z.
    replace (Z.max (53 + e - 53) (3 - 1024 - 53) - e)%Z with 0%Z by lia.
    reflexivity. }
  rewrite Hkeep. cbn [shr_m].
  change (emax - prec)%Z with 971%Z.
  destruct (Z.leb_spec e 971); [reflexivity|lia].
Qed.

(** [math.floor(x * (1 / 8))] for a multiple of 8 below [2^53] is the
    quotient. *)
Lemma floor_eighth (k : Z) :
  (0 <= k)%Z -> (8 * k < 2 ^ 53)%Z ->
  floor (of_int (k * 8) * lit 1 8)%num = Ok k.
Proof.
  intros Hk Hlt.
  destruct (Z.eq_dec k 0) as [->|Hnz]; [vm_compute; reflexivity|].
  destruct (@of_int_small_exact (k * 8)) as (m & e & Hx & Hd & He & Hm); [lia|].
  cbn [floor of_int mul Float64]. unfold F64.floor.
  rewrite mul_spec, Hx.
  replace (Prim2SF (lit 1 8)) with (S754_finite false 4503599627370496 (-55))
    by (vm_compute; reflexivity).
  unfold SF64mul, SFmul. cbn [xorb].
  replace (m * 4503599627370496)%positive with (Pos.iter xO m 52)
    by (rewrite Pos.mul_comm; reflexivity).
  replace (e + -55)%Z with ((e - 3) - Z.pos 52)%Z by lia.
  rewrite binary_round_aux_shifted by (assumption || lia).
  f_equal. unfold F64.floor_SF.
  destruct (Z.leb_spec 0 (e - 3)); [lia|].
  rewrite Z.shiftr_div_pow2 by lia. rewrite Hm.
  replace (- (e - 3))%Z with (- e + 3)%Z by lia.
  rewrite Z.pow_add_r by lia.
  replace (k * 8 * 2 ^ (- e))%Z with (k * (2 ^ (- e) * 2 ^ 3))%Z
    by (change (2 ^ 3)%Z with 8%Z; lia).
  apply Z.div_mul.
  assert (0 < 2 ^ (- e))%Z by (apply Z.pow_pos_nonneg; lia).
  change (2 ^ 3)%Z with 8%Z. lia.
Qed.

(** With [score_down_sample = 8], the default, the two loops of [score]
    read every cell of the feature map exactly once, row after row, each
    with the importance of the point it stands for. *)
Theorem score_default_reads_each_cell_once
        (self : SmartCrop) (target : TargetImage) (crop : Crop float64) :
  score_down_sample self = 8%Z ->
  (0 <= t_width target < 2 ^ 50)%Z -> (0 <= t_height target < 2 ^ 50)%Z ->
  score self target crop = score_spec self target crop.
Proof.
  intros Hds Hw Hh.
  apply score_reads_each_cell_once with (inv := lit 1 8);
    rewrite ?Hds; try lia; [reflexivity|].
  intros col row Hc Hr. unfold cell_index.
  rewrite !floor_eighth by lia. reflexivity.
Qed.

(** ** [crop]: the top crop among the returned rectangles *)

Lemma rmap_nth_inv {T U : Type} (f : T -> result U) (xs : list T) (ys : list U) :
  rmap f xs = Ok ys ->
  forall k y, nth_error ys k = Some y ->
              exists x, nth_error xs k = Some x /\ f x = Ok y.
Proof.
  revert ys. induction xs as [|x xs IH]; intros ys; cbn [rmap].
  - intros [= <-] [|k] y; discriminate.
  - destruct (f x) as [u|] eqn:Hx; [|discriminate].
    destruct (rmap f xs) as [us|]; [|discriminate].
    intros [= <-] [|k] y; cbn [nth_error].
    + intros [= <-]. eauto.
    + apply (IH us eq_refl).
Qed.

(** The rescaling of [crop] leaves the score of a candidate alone. *)
Lemma rescale_score (prescale_size : float64) (s : Scored float64)
      (r : Rect float64) :
  rescale prescale_size s = Ok r -> rect_total r = total_of s.
Proof.
  unfold rescale. intros Hr.
  repeat (rbind_inv Hr). apply Ok_inj in Hr. subst r. reflexivity.
Qed.

Section TopCrop.

Variables (Image Features : Type).
Variable size : Image -> Z * Z.
Variable thumbnail : Image -> Z * Z -> result Image.
Variable extract : Image -> option (list (Boost float64)) -> result Features.
Variable scorer : Features -> Crop float64 -> result (Score float64).

(** What [crop] returns is what [analyse] found for the working image,
    rectangle by rectangle, with the same totals and the same top crop. *)
Lemma crop_keeps_totals (image : Image) (width height : Z) (prescale : bool)
      (max_scale min_scale scale_step : float64) (step : Z)
      (boosts : option (list (Boost float64))) (res : CropResult float64) :
  crop size thumbnail extract scorer image width height prescale
       max_scale min_scale scale_step step boosts = Ok res ->
  exists cs feats scored,
    select scorer feats 0 cs None (of_int (- sys_maxsize))
    = Ok (scored, res_top_crop res)
    /\ (forall k r, nth_error (res_crops res) k = Some r ->
          exists s, nth_error scored k = Some s /\ rect_total r = total_of s)
    /\ (forall k s, nth_error scored k = Some s ->
          exists r, nth_error (res_crops res) k = Some r
                    /\ rect_total r = total_of s).
Proof.
  unfold crop. intros Hrun.
  rbind_inv Hrun. rename v into p, E into Hplan.
  rbind_inv Hrun. rename v into result, E into Hanalyse.
  rbind_inv Hrun. rename v into rects, E into Hrects.
  apply Ok_inj in Hrun. subst res. cbn [res_crops res_top_crop].
  unfold analyse in Hanalyse.
  rbind_inv Hanalyse. rename v into feats, E into Hfeats.
  destruct (size (p_image p)) as [image_width image_height].
  rbind_inv Hanalyse. rename v into cs, E into Hcrops.
  rbind_inv Hanalyse. destruct v as [scored top]. rename E into Hselect.
  apply Ok_inj in Hanalyse. subst result. cbn [a_crops a_top_crop] in *.
  exists cs, feats, scored. split; [exact Hselect|]. split.
  - intros k r Hk.
    destruct (rmap_nth_inv _ _ Hrects k Hk) as (s & Hs & Hr).
    exists s. split; [exact Hs|]. exact (rescale_score _ _ Hr).
  - intros k s Hk.
    destruct (rmap_nth _ _ Hrects k Hk) as (r & Hr & Hres).
    exists r. split; [exact Hr|]. exact (rescale_score _ _ Hres).
Qed.

End TopCrop.

(** The ['top_crop'] that [crop] returns is the first of the returned
    rectangles with the greatest total: no rectangle of the list has a
    greater total, and every one before it has a smaller total. *)
Theorem crop_top_crop_is_first_maximum
        (Image Features : Type) (size : Image -> Z * Z)
        (thumbnail : Image -> Z * Z -> result Image)
        (extract : Image -> option (list (Boost float64)) -> result Features)
        (scorer : Features -> Crop float64 -> result (Score float64))
        (image : Image) (width height : Z) (prescale : bool)
        (max_scale min_scale scale_step : float64) (step : Z)
        (boosts : option (list (Boost float64))) (res : CropResult float64) :
  crop size thumbnail extract scorer image width height prescale
       max_scale min_scale scale_step step boosts = Ok res ->
  (forall r, In r (res_crops res) -> PrimFloat.is_nan (rect_total r) = false) ->
  (exists r, In r (res_crops res)
             /\ PrimFloat.ltb (of_int (- sys_maxsize)) (rect_total r) = true) ->
  exists k top,
    res_top_crop res = Some k
    /\ nth_error (res_crops res) k = Some top
    /\ (forall r, In r (res_crops res) ->
                  PrimFloat.leb (rect_total r) (rect_total top) = true)
    /\ (forall j r, (j < k)%nat -> nth_error (res_crops res) j = Some r ->
                    PrimFloat.ltb (rect_total r) (rect_total top) = true).
Proof.
  intros Hrun Hnan (r0 & Hin0 & Hgt0).
  destruct (crop_keeps_totals _ _ _ _ _ _ _ _ _ _ _ _ _ Hrun)
    as (cs & feats & scored & Hselect & Hback & Hforth).
  assert (Hinit : not_nan (of_int (- sys_maxsize)))
    by (apply is_nan_not_nan; vm_compute; reflexivity).
  assert (Hnan' : forall s, In s scored -> not_nan (total_of s)).
  { intros s Hs. apply In_nth_error in Hs. destruct Hs as [k Hk].
    destruct (Hforth k s Hk) as (r & Hr & <-).
    apply is_nan_not_nan, Hnan. eapply nth_error_In, Hr. }
  destruct (select_first_maximum scorer feats cs 0 None Hselect Hinit Hnan')
    as [[_ Hle]|(k & best & Htop & Hk & _ & Hmax & Hfirst)].
  - exfalso. apply In_nth_error in Hin0. destruct Hin0 as [k Hk].
    destruct (Hback k r0 Hk) as (s & Hs & Heq).
    eapply leb_ltb_absurd; [apply Hle; eapply nth_error_In, Hs|].
    rewrite <- Heq. exact Hgt0.
  - destruct (Hforth k best Hk) as (top & Htopr & Heq).
    exists k, top. split; [exact Htop|]. split; [exact Htopr|]. split.
    + intros r Hr. apply In_nth_error in Hr. destruct Hr as [j Hj].
      destruct (Hback j r Hj) as (s & Hs & ->). rewrite Heq.
      apply Hmax. eapply nth_error_In, Hs.
    + intros j r Hlt Hj.
      destruct (Hback j r Hj) as (s & Hs & ->). rewrite Heq.
      exact (Hfirst j s Hlt Hs).
Qed.

(** ** [crop]: what every successful call returns *)

Lemma rmap_length {T U : Type} (f : T -> result U) (xs : list T) (ys : list U) :
  rmap f xs = Ok ys -> length ys = length xs.
Proof.
  revert ys. induction xs as [|x xs IH]; intros ys; cbn [rmap].
  - now intros [= <-].
  - destruct (f x) as [u|]; [|discriminate].
    destruct (rmap f xs) as [us|]; [|discriminate].
    intros [= <-]. cbn [length]. f_equal. now apply IH.
Qed.

Lemma crops_not_empty {A : Arith}
      (image_width image_height crop_width crop_height : Z)
      (max_scale min_scale scale_step : num) (step : Z) (cs : list (Crop num)) :
  crops image_width image_height crop_width crop_height
        max_scale min_scale scale_step step = Ok cs ->
  cs <> [].
Proof.
  unfold crops. destruct (crops_run _ _ _ _ _ _ _ _) as [acc [[]|e]].
  - destruct acc; [discriminate|]. intros [= <-]. discriminate.
  - destruct acc; discriminate.
Qed.

(** The prescaling of [crop] never enlarges: the factor by which the
    results are scaled back is 1, with the image and the boosts passed on as
    they came, or it is below 1 and the image was reduced by [thumbnail].
    Without [prescale] it is always the former. *)
Theorem crop_prescale_never_enlarges
        {A : Arith} (Image : Type) (size : Image -> Z * Z)
        (thumbnail : Image -> Z * Z -> result Image)
        (image : Image) (width height : Z) (prescale : bool)
        (max_scale min_scale : num) (boosts : option (list (Boost num)))
        (p : Plan num Image) :
  plan size thumbnail image width height prescale max_scale min_scale boosts
  = Ok p ->
  (p_prescale_size p = of_int 1 /\ p_image p = image /\ p_boosts p = boosts)
  \/ (prescale = true
      /\ (p_prescale_size p <? of_int 1)%num = true
      /\ exists tw th,
           trunc (of_int (fst (size image)) * p_prescale_size p)%num = Ok tw
           /\ trunc (of_int (snd (size image)) * p_prescale_size p)%num = Ok th
           /\ thumbnail image (tw, th) = Ok (p_image p)).
Proof.
  unfold plan. destruct (size image) as [image_width image_height].
  cbn [fst snd]. intros Hrun.
  rbind_inv Hrun. rename v into sx, E into Hsx.
  rbind_inv Hrun. rename v into sy, E into Hsy.
  rbind_inv Hrun. rename v into crop_width, E into Hcw.
  rbind_inv Hrun. rename v into crop_height, E into Hch.
  rbind_inv Hrun. rename v into inv, E into Hinv.
  destruct prescale.
  - rbind_inv Hrun. rename v into inv', E into Hinv'.
    rbind_inv Hrun. rename v into prescale_size, E into Hps.
    destruct (prescale_size <? of_int 1)%num eqn:Hlt.
    + rbind_inv Hrun. rename v into tw, E into Htw.
      rbind_inv Hrun. rename v into th, E into Hth.
      rbind_inv Hrun. rename v into image', E into Hthumb.
      rbind_inv Hrun. rbind_inv Hrun.
      apply Ok_inj in Hrun. subst p. cbn [p_prescale_size p_image p_boosts].
      right. split; [reflexivity|]. split; [exact Hlt|].
      exists tw, th. auto.
    + apply Ok_inj in Hrun. subst p. left. repeat split.
  - apply Ok_inj in Hrun. subst p. left. repeat split.
Qed.

Section Returned.

Context {A : Arith}.
Variables (Image Features : Type).
Variable size : Image -> Z * Z.
Variable thumbnail : Image -> Z * Z -> result Image.
Variable extract : Image -> option (list (Boost num)) -> result Features.
Variable scorer : Features -> Crop num -> result (Score num).

(** A successful [crop] returns at least one rectangle, one for each
    candidate that [crops] generated on the working image and in the same
    order, and its ['top_crop'], when there is one, is a position of that
    list. *)
Theorem crop_returns_one_rectangle_per_candidate
        (image : Image) (width height : Z) (prescale : bool)
        (max_scale min_scale scale_step : num) (step : Z)
        (boosts : option (list (Boost num))) (res : CropResult num) :
  crop size thumbnail extract scorer image width height prescale
       max_scale min_scale scale_step step boosts = Ok res ->
  res_crops res <> []
  /\ (forall k, res_top_crop res = Some k ->
                (k < length (res_crops res))%nat)
  /\ exists p cs,
       plan size thumbnail image width height prescale max_scale min_scale
            boosts = Ok p
       /\ crops (fst (size (p_image p))) (snd (size (p_image p)))
                (p_crop_width p) (p_crop_height p)
                max_scale (p_min_scale p) scale_step step = Ok cs
       /\ length (res_crops res) = length cs.
Proof.
  unfold crop. intros Hrun.
  rbind_inv Hrun. rename v into p, E into Hplan.
  rbind_inv Hrun. rename v into result, E into Hanalyse.
  rbind_inv Hrun. rename v into rects, E into Hrects.
  apply Ok_inj in Hrun. subst res. cbn [res_crops res_top_crop].
  unfold analyse in Hanalyse.
  rbind_inv Hanalyse. rename v into feats, E into Hfeats.
  destruct (size (p_image p)) as [image_width image_height] eqn:Hsize.
  rbind_inv Hanalyse. rename v into cs, E into Hcrops.
  rbind_inv Hanalyse. destruct v as [scored top]. rename E into Hselect.
  apply Ok_inj in Hanalyse. subst result. cbn [a_crops a_top_crop] in *.
  destruct (select_top_in_range _ _ _ _ _ _ Hselect) as [Hlen Htop].
  apply rmap_length in Hrects.
  assert (Hn : length rects = length cs) by congruence.
  split; [|split].
  - intros ->. apply (crops_not_empty _ _ _ _ _ _ _ _ Hcrops).
    destruct cs; [reflexivity|discriminate].
  - intros k ->. destruct Htop as [[=]|(k' & [= ->] & Hk)]. lia.
  - exists p, cs. rewrite Hsize. cbn [fst snd].
    split; [exact Hplan|]. split; [exact Hcrops|exact Hn].
Qed.

End Returned.

(** ** [saturation]: the order of the channels *)

(** The saturation of an 8-bit pixel does not depend on which channel
    holds which value. *)
Theorem saturation_ignores_channel_order (r g b : Z) :
  (0 <= r <= 255)%Z -> (0 <= g <= 255)%Z -> (0 <= b <= 255)%Z ->
  saturation_pixel r g b = saturation_pixel g r b
  /\ saturation_pixel r g b = saturation_pixel r b g.
Proof.
  intros Hr Hg Hb. rewrite !saturation_pixel_extremes by assumption.
  split; do 2 f_equal; lia.
Qed.
